(** * Git-Wrapped: the mining pipeline of [read.py]

    A shallow embedding of [read.py] (repository discovery, identity
    matching, the numstat parser, the language snapshot, the session-gap
    estimator and [main]) together with the properties its specification
    states about them and further properties read off the code.

    Conventions of the embedding.
    - Python [str] values are [string]s; the text is taken to be ASCII, so
      [str.lower], [str.strip], [str.split] and [str.splitlines] are the
      ASCII parts of the Python functions.
    - Python [int]s are [Z]; [dict]s used as maps are [gmap]s and [set]s
      are [gset]s.
    - [os.path] is [posixpath].
    - The two [subprocess.run] calls are inputs of the model: the text each
      one printed, or [None] when the call raised. So is the directory
      tree [os.walk] goes through.
    - A [datetime] is its position on the time line in microseconds plus
      the flag telling whether it carries a UTC offset;
      [datetime.fromisoformat] is a parameter of the development.
    - Durations are exact: the float arithmetic of [total_seconds()] and of
      the final division is carried out in microseconds and in [Q].
      [estimate_hours_double] is the same function in the doubles the
      interpreter computes with, for what depends on their rounding. *)

From Stdlib Require Import ZArith QArith Qreduction Ascii String List Lia Sorting.Sorted.
From Stdlib Require Floats Uint63.
From stdpp Require Import base tactics option list sorting strings gmap fin_maps.

Local Open Scope string_scope.
Local Open Scope Z_scope.

(** ** Python string primitives *)

Module Py.

(** [str.isspace] on one ASCII character: TAB, LF, VT, FF, CR,
    FS, GS, RS, US and the space. *)
Definition isspace (c : ascii) : bool :=
  let n := nat_of_ascii c in
  ((9 <=? n) && (n <=? 13) || (28 <=? n) && (n <=? 32))%nat.

(** The characters at which [str.splitlines] breaks a line. *)
Definition islinebreak (c : ascii) : bool :=
  let n := nat_of_ascii c in
  ((10 <=? n) && (n <=? 13) || (28 <=? n) && (n <=? 30))%nat.

Definition isdigit (c : ascii) : bool :=
  let n := nat_of_ascii c in ((48 <=? n) && (n <=? 57))%nat.

Definition digit_value (c : ascii) : Z := Z.of_nat (nat_of_ascii c) - 48.

Definition lower_char (c : ascii) : ascii :=
  let n := nat_of_ascii c in
  if ((65 <=? n) && (n <=? 90))%nat then ascii_of_nat (n + 32) else c.

Fixpoint lower (s : string) : string :=
  match s with
  | EmptyString => EmptyString
  | String c r => String (lower_char c) (lower r)
  end.

Definition is_empty (s : string) : bool :=
  match s with EmptyString => true | _ => false end.

Fixpoint lstrip (s : string) : string :=
  match s with
  | EmptyString => EmptyString
  | String c r => if isspace c then lstrip r else s
  end.

Fixpoint rstrip (s : string) : string :=
  match s with
  | EmptyString => EmptyString
  | String c r =>
      let r' := rstrip r in
      if isspace c && is_empty r' then EmptyString else String c r'
  end.

Definition strip (s : string) : string := rstrip (lstrip s).

Definition startswith (p s : string) : bool := String.prefix p s.

(** [sub in s] *)
Fixpoint contains (sub s : string) : bool :=
  String.prefix sub s ||
  match s with
  | EmptyString => false
  | String _ r => contains sub r
  end.

(** [s.split(sep)] for a one-character separator. *)
Fixpoint split (sep : ascii) (s : string) : list string :=
  match s with
  | EmptyString => [EmptyString]
  | String c r =>
      if Ascii.eqb c sep then EmptyString :: split sep r
      else match split sep r with
           | [] => [String c EmptyString]
           | p :: ps => String c p :: ps
           end
  end.

(** [s.splitlines()]: CR LF counts as one break, and a break at the very
    end opens no further line. *)
Fixpoint splitlines (s : string) : list string :=
  match s with
  | EmptyString => []
  | String c r =>
      if islinebreak c then
        EmptyString ::
          match r with
          | String c' r' =>
              if Ascii.eqb c "013" && Ascii.eqb c' "010"
              then splitlines r' else splitlines r
          | EmptyString => []
          end
      else match splitlines r with
           | [] => [String c EmptyString]
           | l :: ls => String c l :: ls
           end
  end.

(** The longest prefix without white space, and what follows it. *)
Fixpoint span_word (s : string) : string * string :=
  match s with
  | EmptyString => (EmptyString, EmptyString)
  | String c r =>
      if isspace c then (EmptyString, s)
      else let '(w, rest) := span_word r in (String c w, rest)
  end.

(** [s.split(maxsplit=n)]: split at runs of white space, at most [n]
    times; the remainder keeps its trailing white space. *)
Fixpoint split_ws (maxsplit : nat) (s : string) : list string :=
  let s0 := lstrip s in
  if is_empty s0 then []
  else match maxsplit with
       | O => [s0]
       | S n => let '(w, rest) := span_word s0 in w :: split_ws n rest
       end.

(** [s.rfind(c)] for a one-character needle; [-1] when absent. *)
Fixpoint rfind_from (c : ascii) (s : string) (i : Z) (found : Z) : Z :=
  match s with
  | EmptyString => found
  | String c' r => rfind_from c r (i + 1) (if Ascii.eqb c' c then i else found)
  end.

Definition rfind (c : ascii) (s : string) : Z := rfind_from c s 0 (-1).

(** Slices [s[i:]], [s[:j]] and [s[i:j]] for [0 <= i <= j]. *)
Definition slice_from (i : Z) (s : string) : string :=
  String.substring (Z.to_nat i) (String.length s - Z.to_nat i) s.

Definition slice_to (j : Z) (s : string) : string :=
  String.substring 0 (Z.to_nat j) s.

Definition slice (i j : Z) (s : string) : string :=
  String.substring (Z.to_nat i) (Z.to_nat j - Z.to_nat i) s.

Fixpoint forall_chars (f : ascii -> bool) (s : string) : bool :=
  match s with
  | EmptyString => true
  | String c r => f c && forall_chars f r
  end.

(** The digits of a decimal literal: at least one digit, with single
    underscores allowed between digits. *)
Fixpoint digits (acc : Z) (after_digit : bool) (s : string) : option Z :=
  match s with
  | EmptyString => if after_digit then Some acc else None
  | String c r =>
      if isdigit c then digits (10 * acc + digit_value c) true r
      else if Ascii.eqb c "_" && after_digit then digits acc false r
      else None
  end.

(** [int(s)]: [None] stands for [ValueError]. *)
Definition int (s : string) : option Z :=
  match strip s with
  | String "-" r => Z.opp <$> digits 0 false r
  | String "+" r => digits 0 false r
  | r => digits 0 false r
  end.

(** [posixpath.basename] *)
Definition basename (p : string) : string :=
  let i := rfind "/" p + 1 in slice_from i p.

(** [posixpath.splitext]: the extension starts at the last dot of the
    last path component, unless only dots precede it there. *)
Definition splitext (p : string) : string * string :=
  let sepIndex := rfind "/" p in
  let dotIndex := rfind "." p in
  if dotIndex >? sepIndex then
    if forall_chars (fun c => Ascii.eqb c ".") (slice (sepIndex + 1) dotIndex p)
    then (p, EmptyString)
    else (slice_to dotIndex p, slice_from dotIndex p)
  else (p, EmptyString).

End Py.

(** Line feed, tabulator and form feed, for writing raw texts. *)
Definition LF : string := String "010" EmptyString.
Definition TAB : string := String "009" EmptyString.
Definition FF : string := String "012" EmptyString.
Definition CR : string := String "013" EmptyString.


(** ** Configuration tables *)

Definition EXTENSIONS : gmap string string :=
  list_to_map
    [ (".py", "Python"); (".js", "JavaScript"); (".ts", "TypeScript");
      (".rs", "Rust"); (".html", "HTML"); (".css", "CSS"); (".scss", "CSS");
      (".c", "C"); (".h", "C"); (".hpp", "C++"); (".cpp", "C++");
      (".cc", "C++"); (".cu", "CUDA"); (".cuh", "CUDA"); (".java", "Java");
      (".go", "Go"); (".rb", "Ruby"); (".php", "PHP"); (".sh", "Shell");
      (".bash", "Shell"); (".zsh", "Shell"); (".md", "Markdown");
      (".json", "JSON"); (".yaml", "YAML"); (".yml", "YAML"); (".sql", "SQL");
      (".dockerfile", "Docker"); ("dockerfile", "Docker"); (".xml", "XML");
      (".vue", "Vue"); (".jsx", "React"); (".tsx", "React");
      (".toml", "TOML"); (".lua", "Lua") ].

Definition IGNORE_EXTENSIONS : gset string :=
  list_to_set
    [ ".lock"; ".svg"; ".map"; ".csv"; ".tsv"; ".min.js"; ".min.css";
      ".jsonl"; ".ipynb"; ".png"; ".jpg"; ".jpeg"; ".gif"; ".ico"; ".webp" ].

Definition IGNORE_EXACT_FILES : gset string :=
  list_to_set
    [ "package-lock.json"; "yarn.lock"; "pnpm-lock.yaml"; "composer.lock";
      "Cargo.lock"; "Gemfile.lock"; "poetry.lock" ].

(** ** Data *)

(** The dictionary [parse_git_log] builds for one commit. *)
Record commit := mk_commit {
  hash : string;
  date : string;
  name : string;
  email : string;
  additions : Z;
  deletions : Z;
  files : Z
}.

(** The flattened dictionary [main] appends to [all_commits]. *)
Record flat_commit := mk_flat {
  fc_date : string;
  fc_repo : string;
  fc_additions : Z;
  fc_deletions : Z;
  fc_impact : Z
}.

Record datetime := mk_datetime {
  tzaware : bool;
  micros : Z
}.

(** The exceptions that leave [estimate_hours]. *)
Inductive exn := ValueError | TypeError.

(** What the two git calls gave for one repository. *)
Record repo := mk_repo {
  repo_path : string;
  git_log : option string;
  git_ls_files : option string
}.

(** [export_data] *)
Record dataset := mk_dataset {
  detailed_commits : list flat_commit;
  languages : gmap string Z;
  repos : gmap string Z;
  total_hours_estimated : Q;
  generated_at : string
}.

Definition usec_per_sec : Z := 1000000.
Definition usec (seconds : Z) : Z := seconds * usec_per_sec.

Section Pipeline.

(** The operator's identities. *)
Variable MY_EMAILS : gset string.
Variable MY_NAMES : gset string.

(** [datetime.fromisoformat]; [None] stands for its [ValueError]. *)
Variable fromisoformat : string -> option datetime.

(** *** [is_me] *)

Definition is_me (name email : string) : bool :=
  if bool_decide (email ∈ MY_EMAILS) || bool_decide (name ∈ MY_NAMES) then true
  else existsb (fun my_id => Py.contains my_id email) (elements MY_EMAILS).

(** *** [parse_git_log] *)

(** The header branch: [parts = line.split("|")] and the new dictionary;
    [None] stands for the [IndexError] of a header with too few fields. *)
Definition new_commit (line : string) : option commit :=
  match Py.split "|" line with
  | _ :: p1 :: p2 :: p3 :: p4 :: _ =>
      Some {| hash := p1; date := p2;
              name := Py.strip p3; email := Py.lower (Py.strip p4);
              additions := 0; deletions := 0; files := 0 |}
  | _ => None
  end.

Definition add_additions (n : Z) (c : commit) : commit :=
  {| hash := hash c; date := date c; name := name c; email := email c;
     additions := additions c + n; deletions := deletions c; files := files c |}.

Definition add_deletions (n : Z) (c : commit) : commit :=
  {| hash := hash c; date := date c; name := name c; email := email c;
     additions := additions c; deletions := deletions c + n; files := files c |}.

Definition add_file (c : commit) : commit :=
  {| hash := hash c; date := date c; name := name c; email := email c;
     additions := additions c; deletions := deletions c; files := files c + 1 |}.

(** The body of the inner [try]: the dictionary is updated in place, so
    what was added before a [ValueError] stays added. *)
Definition numstat_line (c : commit) (line : string) : commit :=
  match Py.split_ws 2 line with
  | added :: deleted :: rest :: _ =>
      let filename := Py.strip rest in
      if bool_decide (Py.basename filename ∈ IGNORE_EXACT_FILES) then c
      else
        let ext := snd (Py.splitext filename) in
        if bool_decide (Py.lower ext ∈ IGNORE_EXTENSIONS) then c
        else
          let after_added :=
            if String.eqb added "-" then Some c
            else (fun n => add_additions n c) <$> Py.int added in
          match after_added with
          | None => c
          | Some c1 =>
              let after_deleted :=
                if String.eqb deleted "-" then Some c1
                else (fun n => add_deletions n c1) <$> Py.int deleted in
              match after_deleted with
              | None => c1
              | Some c2 => add_file c2
              end
          end
  | _ => c
  end.

(** [commits.append(current_commit)] guarded by [is_me]. *)
Definition save (current_commit : option commit) (commits : list commit)
  : list commit :=
  match current_commit with
  | Some c => if is_me (name c) (email c) then commits ++ [c] else commits
  | None => commits
  end.

(** The loop over the lines, then the statements after it. A header
    that cannot be taken apart raises inside the outer [try], which ends
    the function with the commits appended so far. *)
Fixpoint parse_lines (lines : list string) (current_commit : option commit)
    (commits : list commit) : list commit :=
  match lines with
  | [] => save current_commit commits
  | line :: rest =>
      if Py.startswith "HEADER|" line then
        let commits := save current_commit commits in
        match new_commit line with
        | Some c => parse_lines rest (Some c) commits
        | None => commits
        end
      else
        match current_commit with
        | Some c =>
            if negb (Py.is_empty (Py.strip line))
            then parse_lines rest (Some (numstat_line c line)) commits
            else parse_lines rest current_commit commits
        | None => parse_lines rest current_commit commits
        end
  end.

Definition parse_git_log (stdout : option string) : list commit :=
  match stdout with
  | Some text => parse_lines (Py.splitlines text) None []
  | None => []
  end.

(** *** [get_current_languages] *)

Definition bump (lang : string) (n : Z) (m : gmap string Z) : gmap string Z :=
  <[lang := default 0 (m !! lang) + n]> m.

Definition count_file (languages : gmap string Z) (file : string)
  : gmap string Z :=
  let ext := Py.lower (snd (Py.splitext file)) in
  match EXTENSIONS !! ext with
  | Some lang => bump lang 1 languages
  | None => languages
  end.

Definition get_current_languages (stdout : option string) : gmap string Z :=
  match stdout with
  | Some text => fold_left count_file (Py.splitlines text) ∅
  | None => ∅
  end.

(** *** [estimate_hours] *)

(** [sorted] compares the datetimes with one another, which raises
    [TypeError] as soon as one carries an offset and another does not. *)
Definition comparable (ds : list datetime) : bool :=
  forallb tzaware ds || forallb (fun d => negb (tzaware d)) ds.

(** One turn of the loop [for i in range(1, len(dates))]; the running
    total and [diff] are in microseconds. *)
Definition gap_step (dates : list Z) (total : Z) (i : nat) : Z :=
  let diff := dates !!! i - dates !!! (i - 1)%nat in
  if diff <? usec 7200 then total + diff else total + usec 3600.

(** [total_seconds / 3600] for a total in microseconds. *)
Definition hours_of_usec (total : Z) : Q := Qred (total # 3600000000).

Definition estimate_hours (commits : list flat_commit) : exn + Q :=
  match commits with
  | [] => inr 0%Q
  | _ =>
      match mapM (fun c => fromisoformat (fc_date c)) commits with
      | None => inl ValueError
      | Some ds =>
          if comparable ds then
            let dates := merge_sort Z.le (micros <$> ds) in
            let total :=
              fold_left (gap_step dates)
                        (seq 1 (length dates - 1)) (0 + usec 3600) in
            inr (hours_of_usec total)
          else inl TypeError
      end
  end.

(** *** [main] *)

Definition flatten (repo_name : string) (c : commit) : flat_commit :=
  {| fc_date := date c; fc_repo := repo_name;
     fc_additions := additions c; fc_deletions := deletions c;
     fc_impact := additions c + deletions c |}.

(** The three accumulators of [main]. *)
Record accum := mk_accum {
  all_commits : list flat_commit;
  language_counts : gmap string Z;
  repo_totals : gmap string Z
}.

(** The body of [for repo_path in repos]. *)
Definition process_repo (acc : accum) (r : repo) : accum :=
  let repo_name := Py.basename (repo_path r) in
  let repo_commits := parse_git_log (git_log r) in
  let repo_langs := get_current_languages (git_ls_files r) in
  {| all_commits := all_commits acc ++ (flatten repo_name <$> repo_commits);
     language_counts := map_fold bump (language_counts acc) repo_langs;
     repo_totals :=
       if (0 <? length repo_commits)%nat
       then <[repo_name := Z.of_nat (length repo_commits)]> (repo_totals acc)
       else repo_totals acc |}.

(** [main], given the repositories found by [get_git_repos] and the
    string [datetime.now().isoformat()] gives at the end. An exception
    of [estimate_hours] is not caught: no dataset is written. *)
Definition main (found : list repo) (now : string) : exn + dataset :=
  let acc := fold_left process_repo found (mk_accum [] ∅ ∅) in
  match estimate_hours (all_commits acc) with
  | inl e => inl e
  | inr total_hours =>
      inr {| detailed_commits := all_commits acc;
             languages := language_counts acc;
             repos := repo_totals acc;
             total_hours_estimated := total_hours;
             generated_at := now |}
  end.

End Pipeline.

(** ** An instance of [fromisoformat]

    The strict ISO 8601 form that [git log] prints for [%aI],
    [YYYY-MM-DDTHH:MM:SS+HH:MM], and the same without offset. It is the
    parser the concrete runs below are evaluated with; the general results
    hold for any parser. *)

Module Iso.

Definition number (s : string) : option Z :=
  if Py.forall_chars Py.isdigit s && negb (Py.is_empty s)
  then Py.digits 0 false s else None.

Definition field (i n : nat) (s : string) : option Z :=
  number (String.substring i n s).

Definition sep_at (i : nat) (c : ascii) (s : string) : bool :=
  match String.get i s with
  | Some c' => Ascii.eqb c' c
  | None => false
  end.

Definition is_leap (y : Z) : bool :=
  (y mod 4 =? 0) && (negb (y mod 100 =? 0) || (y mod 400 =? 0)).

Definition days_in_month (y m : Z) : Z :=
  if m =? 2 then (if is_leap y then 29 else 28)
  else if (m =? 4) || (m =? 6) || (m =? 9) || (m =? 11) then 30 else 31.

(** Days from 1970-01-01 to the given day of the Gregorian calendar. *)
Definition days_from_civil (y m d : Z) : Z :=
  let y' := if m <=? 2 then y - 1 else y in
  let era := y' / 400 in
  let yoe := y' - era * 400 in
  let mp := (m + 9) mod 12 in
  let doy := (153 * mp + 2) / 5 + d - 1 in
  let doe := yoe * 365 + yoe / 4 - yoe / 100 + doy in
  era * 146097 + doe - 719468.

(** The seconds of the wall clock reading [YYYY-MM-DDTHH:MM:SS]. *)
Definition wall_clock (s : string) : option Z :=
  y ← field 0 4 s; m ← field 5 2 s; d ← field 8 2 s;
  hh ← field 11 2 s; mm ← field 14 2 s; ss ← field 17 2 s;
  if sep_at 4 "-" s && sep_at 7 "-" s && sep_at 10 "T" s
     && sep_at 13 ":" s && sep_at 16 ":" s
     && (1 <=? y) && (1 <=? m) && (m <=? 12)
     && (1 <=? d) && (d <=? days_in_month y m)
     && (hh <? 24) && (mm <? 60) && (ss <? 60)
  then Some (days_from_civil y m d * 86400 + hh * 3600 + mm * 60 + ss)
  else None.

(** The seconds east of UTC of an offset [+HH:MM] or [-HH:MM]. *)
Definition offset (s : string) : option Z :=
  oh ← field 1 2 s; om ← field 4 2 s;
  if sep_at 3 ":" s && (oh <? 24) && (om <? 60) && (String.length s =? 6)%nat
  then if sep_at 0 "+" s then Some (oh * 3600 + om * 60)
       else if sep_at 0 "-" s then Some (- (oh * 3600 + om * 60))
       else None
  else None.

Definition fromisoformat (s : string) : option datetime :=
  w ← wall_clock s;
  if (String.length s =? 19)%nat then Some (mk_datetime false (usec w))
  else o ← offset (String.substring 19 6 s);
       if (String.length s =? 25)%nat
       then Some (mk_datetime true (usec (w - o)))
       else None.


End Iso.

(** ** The session-gap heuristic in the words of the specification *)

(** What one gap between consecutive timestamps is worth, in hours: the
    gap itself under two hours, a flat hour otherwise. *)
Definition credit (gap : Z) : Q :=
  if gap <? usec 7200 then gap # 3600000000 else 1%Q.

Fixpoint gap_credits (previous : Z) (later : list Z) : Q :=
  match later with
  | [] => 0%Q
  | t :: rest => (credit (t - previous) + gap_credits t rest)%Q
  end.

(** Nothing for no timestamp; else one hour plus the credit of each
    consecutive pair of the ascending timeline. *)
Definition session_gap_hours (timeline : list Z) : Q :=
  match timeline with
  | [] => 0%Q
  | t :: later => (1 + gap_credits t later)%Q
  end.

(** The dates of [commits] parse to datetimes that can be compared with
    one another, at the instants [ts] in some order. *)
Definition timeline_of (fromisoformat : string -> option datetime)
    (commits : list flat_commit) (ts : list Z) : Prop :=
  exists ds, mapM (fun c => fromisoformat (fc_date c)) commits = Some ds
             /\ comparable ds = true /\ micros <$> ds ≡ₚ ts.

(** The same sum in microseconds, as the loop accumulates it. *)
Definition credit_usec (gap : Z) : Z :=
  if gap <? usec 7200 then gap else usec 3600.

Fixpoint credits_usec (previous : Z) (later : list Z) : Z :=
  match later with
  | [] => 0
  | t :: rest => credit_usec (t - previous) + credits_usec t rest
  end.

Definition total_usec (timeline : list Z) : Z :=
  match timeline with
  | [] => 0
  | t :: later => usec 3600 + credits_usec t later
  end.

(** One more instant put at its place in an ascending timeline. *)
Fixpoint insert_instant (t : Z) (timeline : list Z) : list Z :=
  match timeline with
  | [] => [t]
  | x :: rest => if t <=? x then t :: timeline else x :: insert_instant t rest
  end.

(** The dates of [commits] parse, and to ascending instants. *)
Definition chronological (fromisoformat : string -> option datetime)
    (commits : list flat_commit) : Prop :=
  exists ds, mapM (fun c => fromisoformat (fc_date c)) commits = Some ds
             /\ Sorted Z.le (micros <$> ds).

(** ** Vocabulary of the statements *)

(** [sub] occurs somewhere in [s]. *)
Definition occurs_in (sub s : string) : Prop :=
  exists pre post, s = pre ++ sub ++ post.

(** The matched commits of every repository, flattened, repository after
    repository in the order of discovery, each in the order of its log. *)
Definition matched_commits (MY_EMAILS MY_NAMES : gset string)
    (found : list repo) : list flat_commit :=
  flat_map
    (fun r => flatten (Py.basename (repo_path r))
                <$> parse_git_log MY_EMAILS MY_NAMES (git_log r))
    found.

(** A numeric field that, where [int] accepts it, is not negative. *)
Definition nonneg_field (t : string) : bool :=
  match Py.int t with
  | Some n => 0 <=? n
  | None => true
  end.

(** A line whose two leading fields, were it read as a change line, are
    not negative. *)
Definition unsigned_line (line : string) : bool :=
  match Py.split_ws 2 line with
  | added :: deleted :: _ :: _ => nonneg_field added && nonneg_field deleted
  | _ => true
  end.

Definition unsigned_counts (found : list repo) : Prop :=
  forall r text, r ∈ found -> git_log r = Some text ->
    Forall (fun line => unsigned_line line = true) (Py.splitlines text).

(** Raw texts of the shape [git log] prints: a header line and a numstat
    line. *)
Definition hdr (h d n e : string) : string :=
  "HEADER|" ++ h ++ "|" ++ d ++ "|" ++ n ++ "|" ++ e ++ LF.
Definition stat (a d f : string) : string := a ++ TAB ++ d ++ TAB ++ f ++ LF.

(** ** Concrete data for the examples *)

Definition at_time (d : string) : flat_commit :=
  {| fc_date := d; fc_repo := "A"; fc_additions := 0; fc_deletions := 0;
     fc_impact := 0 |}.

Definition c_10h00 : flat_commit := at_time "2024-01-01T10:00:00+00:00".
Definition c_10h30 : flat_commit := at_time "2024-01-01T10:30:00+00:00".
Definition c_11h00 : flat_commit := at_time "2024-01-01T11:00:00+00:00".
Definition c_15h00 : flat_commit := at_time "2024-01-01T15:00:00+00:00".
Definition c_19h00 : flat_commit := at_time "2024-01-01T19:00:00+00:00".

(** 2024-01-01T10:00:00+00:00 in seconds since 1970. *)
Definition t_10h00 : Z := 1704103200.

Definition aware (seconds : Z) : datetime :=
  {| tzaware := true; micros := usec seconds |}.

Definition nonneg_commit (c : commit) : Prop :=
  0 <= additions c /\ 0 <= deletions c.

(** The operator of the examples. *)
Definition me : gset string := {["me@x.com"]}.

Definition my_commit (h d : string) : string :=
  hdr h d "Me" "me@x.com" ++ LF.

(** A repository whose log lists two matched commits, newest first. *)
Definition repo_A : repo :=
  {| repo_path := "/home/me/Development/A";
     git_log :=
       Some (my_commit "c2" "2024-01-01T11:00:00+00:00"
             ++ stat "4" "1" "src/main.py"
             ++ my_commit "c1" "2024-01-01T10:00:00+00:00"
             ++ stat "7" "0" "src/main.py");
     git_ls_files := Some ("src/main.py" ++ LF) |}.

(** Two repositories with one matched commit each, 30 minutes apart. *)
Definition repo_alpha : repo :=
  {| repo_path := "/home/me/Development/alpha";
     git_log :=
       Some (my_commit "a1" "2024-01-01T10:00:00+00:00"
             ++ stat "1" "0" "lib.rs");
     git_ls_files := Some ("lib.rs" ++ LF) |}.

Definition repo_beta : repo :=
  {| repo_path := "/home/me/Development/beta";
     git_log :=
       Some (my_commit "b1" "2024-01-01T10:30:00+00:00"
             ++ stat "2" "2" "app.py");
     git_ls_files := Some ("app.py" ++ LF) |}.

(** The newer commit of [repo_A], as [main] flattens it. *)
Definition c_A_11h00 : flat_commit :=
  {| fc_date := "2024-01-01T11:00:00+00:00"; fc_repo := "A";
     fc_additions := 4; fc_deletions := 1; fc_impact := 5 |}.

(** A log with a change line whose counts carry a minus sign. *)
Definition repo_signed : repo :=
  {| repo_path := "/home/me/Development/signed";
     git_log :=
       Some (my_commit "s1" "2024-01-01T10:00:00+00:00"
             ++ stat "-5" "-3" "src/main.py");
     git_ls_files := Some ("src/main.py" ++ LF) |}.

(** A log with a minified asset, and one with a change line whose second
    count is not a number. *)
Definition log_minified : string :=
  my_commit "m1" "2024-01-01T10:00:00+00:00"
  ++ stat "10" "5" "static/app.min.js".

Definition log_malformed : string :=
  my_commit "x1" "2024-01-01T10:00:00+00:00"
  ++ stat "10" "x" "src/main.py"
  ++ stat "2" "1" "src/util.py".

Definition fresh (h d : string) : commit :=
  {| hash := h; date := d; name := "Me"; email := "me@x.com";
     additions := 0; deletions := 0; files := 0 |}.

(** ** [get_git_repos]

    The directory tree below the root as [os.walk] lists it: for each
    directory the sub-directories it holds, by name, in the order of the
    listing. Files play no part in the function and are left out; a
    directory that cannot be read lists nothing, and neither does an
    entry that is a symbolic link, which the walk does not follow. *)

#[local] Set Warnings "-register-all".
Inductive tree := Dir (subdirs : list (string * tree)).

Definition subdirs_of (t : tree) : list (string * tree) :=
  match t with Dir subdirs => subdirs end.

(** The names [get_git_repos] takes out of [dirnames]. *)
Definition SKIP_DIRS : list string :=
  [ ".git"; "node_modules"; "venv"; "target"; "dist"; "build"; "vendor";
    "deps"; "__pycache__" ].

(** [posixpath.join] of two components. *)
Definition path_join (a b : string) : string :=
  if Py.startswith "/" b then b
  else if Py.is_empty a || Py.startswith "/" (String.rev a) then a ++ b
  else a ++ "/" ++ b.

(** [dirnames.remove(skip)] guarded by [skip in dirnames]: the first entry
    of that name goes. The entries carry what lies below them. *)
Fixpoint remove_first {A} (skip : string) (dirnames : list (string * A))
  : list (string * A) :=
  match dirnames with
  | [] => []
  | (n, below) :: rest =>
      if String.eqb n skip then rest else (n, below) :: remove_first skip rest
  end.

(** The loop [for skip in [...]] over [dirnames]. *)
Definition prune {A} (dirnames : list (string * A)) : list (string * A) :=
  fold_left (fun ds skip => remove_first skip ds) SKIP_DIRS dirnames.

(** The walk from [dirpath] down. A directory holding ".git" is recorded
    and nothing below it is visited; elsewhere the walk goes on into the
    sub-directories left after pruning, in their order. The result for
    each sub-directory is paired with its name before pruning, which
    looks at the names only. *)
Fixpoint walk_repos (dirpath : string) (t : tree) : list string :=
  match t with
  | Dir subdirs =>
      if bool_decide (".git" ∈ subdirs.*1) then [dirpath]
      else
        let below :=
          (fun entry : string * tree =>
             (fst entry, walk_repos (path_join dirpath (fst entry)) (snd entry)))
            <$> subdirs in
        mjoin (snd <$> prune below)
  end.

Definition get_git_repos (root : string) (listing : tree) : list string :=
  walk_repos root listing.

(** No two sub-directories of a directory share a name, at any depth. *)
Fixpoint distinct_names (t : tree) : Prop :=
  match t with
  | Dir subdirs =>
      NoDup subdirs.*1
      /\ (fix all (l : list (string * tree)) : Prop :=
            match l with
            | [] => True
            | entry :: rest => distinct_names (snd entry) /\ all rest
            end) subdirs
  end.

(** [q] is the path of a directory holding ".git" that is reached from
    the directory [t] at [p] through directories that hold no ".git" and
    whose names are not pruned. *)
Inductive repo_at : string -> tree -> string -> Prop :=
| repo_here p t :
    ".git" ∈ (subdirs_of t).*1 -> repo_at p t p
| repo_below p t n sub q :
    ".git" ∉ (subdirs_of t).*1 ->
    (n, sub) ∈ subdirs_of t ->
    n ∉ SKIP_DIRS ->
    repo_at (path_join p n) sub q ->
    repo_at p t q.

(** A tree for the examples: a repository at the root of [app], one
    nested in it, one inside [node_modules], and one two levels down. *)
Definition repo_dir (more : list (string * tree)) : tree :=
  Dir ((".git", Dir []) :: more).

Definition development : tree :=
  Dir [ ("app", repo_dir [("vendored", repo_dir [])]);
        ("node_modules", Dir [("left-pad", repo_dir [])]);
        ("work", Dir [("tools", repo_dir []); ("notes", Dir [])]) ].

(** ** Vocabulary for the parser *)

(** A line that is no header and that [parse_git_log] passes over: blank,
    with fewer than three fields, or naming an ignored file. *)
Definition ignorable (line : string) : bool :=
  negb (Py.startswith "HEADER|" line)
  && (Py.is_empty (Py.strip line)
      || match Py.split_ws 2 line with
         | _ :: _ :: rest :: _ =>
             let filename := Py.strip rest in
             bool_decide (Py.basename filename ∈ IGNORE_EXACT_FILES)
             || bool_decide
                  (Py.lower (snd (Py.splitext filename)) ∈ IGNORE_EXTENSIONS)
         | _ => true
         end).

(** A field as git prints it: not empty and free of white space. *)
Definition is_word (s : string) : bool :=
  negb (Py.is_empty s) && Py.forall_chars (fun c => negb (Py.isspace c)) s.

(** What a count field adds: nothing for "-", else its [int]. *)
Definition count_field (field : string) : option Z :=
  if String.eqb field "-" then Some 0 else Py.int field.

(** The commits of [commits] recorded for the repository [repo_name]. *)
Definition commits_of (repo_name : string) (commits : list flat_commit) : Z :=
  Z.of_nat (length (filter (fun c => fc_repo c = repo_name) commits)).

(** The tracked files of a listing that the table maps to [lang]. *)
Definition files_of (lang : string) (lines : list string) : Z :=
  Z.of_nat (length (filter
    (fun file => EXTENSIONS !! Py.lower (snd (Py.splitext file)) = Some lang)
    lines)).

(** A map of counts without an entry of 0 or less. *)
Definition positive_counts (m : gmap string Z) : Prop :=
  forall lang v, m !! lang = Some v -> 0 < v.

(** Two properties of the accumulators of [main]: every recorded total is at least 1 and at most the number of commits
    accumulated under that name. *)
Definition totals_bounded (acc : accum) : Prop :=
  forall repo_name n,
    repo_totals acc !! repo_name = Some n ->
    1 <= n <= commits_of repo_name (all_commits acc).

(** Every name has as its total the number of commits accumulated under
    it. *)
Definition totals_exact (acc : accum) : Prop :=
  forall repo_name,
    default 0 (repo_totals acc !! repo_name)
    = commits_of repo_name (all_commits acc).

(** The new dictionaries of the headers of [lines] that can be taken
    apart, in the order of the lines. *)
Definition header_commits (lines : list string) : list commit :=
  omap (fun line =>
          if Py.startswith "HEADER|" line then new_commit line else None)
       lines.

(** What a header gives a commit: hash, date, name and email. *)
Definition heading (c : commit) : string * string * string * string :=
  (hash c, date c, name c, email c).

Definition listing_lines (stdout : option string) : list string :=
  match stdout with
  | Some text => Py.splitlines text
  | None => []
  end.

(** ** [estimate_hours] in doubles

    The function as the interpreter computes it: [total_seconds()] is the
    double nearest to the microseconds divided by 10^6, the running total
    is a double from the first gap under two hours on (before that an
    integer small enough to be one exactly), and the result is the double
    quotient by 3600. *)

Definition double_of_Z (z : Z) : PrimFloat.float :=
  if z <? 0 then PrimFloat.opp (PrimFloat.of_uint63 (Uint63.of_Z (- z)))
  else PrimFloat.of_uint63 (Uint63.of_Z z).

(** [timedelta.total_seconds()] of a difference given in microseconds. *)
Definition total_seconds (diff : Z) : PrimFloat.float :=
  PrimFloat.div (double_of_Z diff) (double_of_Z usec_per_sec).

Definition gap_step_double (dates : list Z) (total : PrimFloat.float) (i : nat)
  : PrimFloat.float :=
  let diff := total_seconds (dates !!! i - dates !!! (i - 1)%nat) in
  if PrimFloat.ltb diff (double_of_Z 7200)
  then PrimFloat.add total diff
  else PrimFloat.add total (double_of_Z 3600).

Definition estimate_hours_double (fromisoformat : string -> option datetime)
    (commits : list flat_commit) : exn + PrimFloat.float :=
  match commits with
  | [] => inr (double_of_Z 0)
  | _ =>
      match mapM (fun c => fromisoformat (fc_date c)) commits with
      | None => inl ValueError
      | Some ds =>
          if comparable ds then
            let dates := merge_sort Z.le (micros <$> ds) in
            let total :=
              fold_left (gap_step_double dates)
                        (seq 1 (length dates - 1))
                        (PrimFloat.add (double_of_Z 0) (double_of_Z 3600)) in
            inr (PrimFloat.div total (double_of_Z 3600))
          else inl TypeError
      end
  end.

Definition c_11h50 : flat_commit := at_time "2024-01-01T11:50:00+00:00".

(** A commit whose author email has a capital, as git prints it. *)
Definition log_capital : string :=
  hdr "k1" "2024-01-01T10:00:00+00:00" "B" "A@x.com"
  ++ LF ++ stat "3" "1" "src/main.py".

(** ** The loop of [estimate_hours] *)

Section Loop.

Lemma gap_step_credit dates total i :
  gap_step dates total i
  = total + credit_usec (dates !!! i - dates !!! (i - 1)%nat).
Proof. unfold gap_step, credit_usec. by case_match. Qed.

(** Below index 1 of [a :: dates] the loop body reads as on [dates]. *)
Lemma gap_step_shift a dates total i :
  (1 <= i)%nat ->
  gap_step (a :: dates) total (S i) = gap_step dates total i.
Proof.
  intros Hi. rewrite !gap_step_credit.
  destruct i as [|i]; [lia|]. simpl. by rewrite Nat.sub_0_r.
Qed.

Lemma fold_gap_step_shift a dates idx total :
  Forall (fun i => (1 <= i)%nat) idx ->
  fold_left (gap_step (a :: dates)) (S <$> idx) total
  = fold_left (gap_step dates) idx total.
Proof.
  intros Hidx. revert total.
  induction Hidx as [|i idx Hi _ IH]; intros total; [done|].
  simpl. rewrite <- IH. f_equal. by apply gap_step_shift.
Qed.

Lemma loop_credits a later total :
  fold_left (gap_step (a :: later)) (seq 1 (length later)) total
  = total + credits_usec a later.
Proof.
  revert a total. induction later as [|b later IH]; intros a total.
  - simpl. lia.
  - cbn [length seq fold_left]. rewrite <- seq_shift.
    change (map S) with (fmap (M:=list) S).
    rewrite fold_gap_step_shift.
    + rewrite IH, gap_step_credit. cbn. lia.
    + apply Forall_forall. intros i Hi. apply list_elem_of_In, in_seq in Hi. lia.
Qed.

(** The loop computes the seed plus the credits of the consecutive
    gaps. *)
Lemma loop_total dates :
  dates <> [] ->
  fold_left (gap_step dates) (seq 1 (length dates - 1)) (0 + usec 3600)
  = total_usec dates.
Proof.
  destruct dates as [|a later]; [done|intros _].
  cbn [length]. rewrite Nat.sub_succ, Nat.sub_0_r, loop_credits. done.
Qed.

End Loop.

(** ** Sorting instants *)

Lemma sorted_unique_Z (l1 l2 : list Z) :
  Sorted Z.le l1 -> Sorted Z.le l2 -> l1 ≡ₚ l2 -> l1 = l2.
Proof. intros. by apply (Sorted_unique Z.le). Qed.

Lemma merge_sort_perm_eq (l1 l2 : list Z) :
  l1 ≡ₚ l2 -> merge_sort Z.le l1 = merge_sort Z.le l2.
Proof.
  intros Hp. apply sorted_unique_Z; try apply (Sorted_merge_sort Z.le).
  by rewrite !merge_sort_Permutation.
Qed.

Lemma merge_sort_sorted_id (l : list Z) :
  Sorted Z.le l -> merge_sort Z.le l = l.
Proof.
  intros Hs. apply sorted_unique_Z; [apply (Sorted_merge_sort Z.le)|done|].
  apply merge_sort_Permutation.
Qed.

Lemma merge_sort_nonempty (l : list Z) : l <> [] -> merge_sort Z.le l <> [].
Proof.
  intros Hl He. apply Hl, Permutation_nil_r.
  rewrite <- He. by rewrite merge_sort_Permutation.
Qed.

(** ** From microseconds to hours *)

Lemma hours_of_usec_eq total : (hours_of_usec total == total # 3600000000)%Q.
Proof. apply Qred_correct. Qed.


Lemma credit_of_usec gap : (credit gap == credit_usec gap # 3600000000)%Q.
Proof.
  unfold credit, credit_usec. case_match; [reflexivity|].
  unfold Qeq. simpl. reflexivity.
Qed.

Lemma Qmake_add a b (d : positive) : ((a + b) # d == (a # d) + (b # d))%Q.
Proof. unfold Qeq, Qplus. simpl. nia. Qed.

Lemma gap_credits_of_usec previous later :
  (gap_credits previous later == credits_usec previous later # 3600000000)%Q.
Proof.
  revert previous. induction later as [|t rest IH]; intros previous; simpl.
  - reflexivity.
  - by rewrite Qmake_add, IH, credit_of_usec.
Qed.

Lemma session_gap_hours_of_usec timeline :
  (hours_of_usec (total_usec timeline) == session_gap_hours timeline)%Q.
Proof.
  rewrite hours_of_usec_eq. destruct timeline as [|t later]; simpl.
  - reflexivity.
  - rewrite Qmake_add, gap_credits_of_usec. apply Qplus_comp; reflexivity.
Qed.

(** ** [estimate_hours] on a parsed timeline *)

Section Estimator.

Variable fromisoformat : string -> option datetime.

Local Abbreviation estimate := (estimate_hours fromisoformat).
Local Abbreviation timeline_of := (timeline_of fromisoformat).

Lemma timeline_of_nil ts : timeline_of [] ts -> ts = [].
Proof.
  intros (ds & Hds & _ & Hp). simpl in Hds. injection Hds as <-.
  by apply Permutation_nil_l in Hp.
Qed.

Lemma estimate_hours_timeline commits ts :
  timeline_of commits ts ->
  estimate commits
  = inr (hours_of_usec (total_usec (merge_sort Z.le ts))).
Proof.
  intros Ht. destruct commits as [|c commits].
  - apply timeline_of_nil in Ht as ->. reflexivity.
  - destruct Ht as (ds & Hds & Hcmp & Hp).
    unfold estimate_hours. rewrite Hds, Hcmp.
    assert (Hne : micros <$> ds <> []).
    { apply length_mapM in Hds. destruct ds; [discriminate|done]. }
    rewrite loop_total by by apply merge_sort_nonempty.
    by rewrite (merge_sort_perm_eq _ _ Hp).
Qed.

Lemma estimate_hours_sorted commits ts :
  timeline_of commits ts -> Sorted Z.le ts ->
  estimate commits = inr (hours_of_usec (total_usec ts)).
Proof.
  intros Ht Hs. rewrite (estimate_hours_timeline _ _ Ht).
  by rewrite merge_sort_sorted_id.
Qed.

End Estimator.

(** ** One more instant never lowers the total *)

Lemma credit_usec_nonneg gap : 0 <= gap -> 0 <= credit_usec gap.
Proof. unfold credit_usec, usec, usec_per_sec. case_match; lia. Qed.


Lemma insert_instant_perm t l : insert_instant t l ≡ₚ t :: l.
Proof.
  induction l as [|x l IH]; simpl; [done|].
  case_match; [done|]. rewrite IH. apply Permutation_swap.
Qed.

Lemma insert_instant_sorted t l :
  Sorted Z.le l -> Sorted Z.le (insert_instant t l).
Proof.
  induction l as [|x l IH]; intros Hs; simpl.
  - repeat constructor.
  - apply Sorted_inv in Hs as [Hs Hhd].
    destruct (Z.leb_spec t x).
    + repeat constructor; done.
    + constructor; [by apply IH|].
      destruct l as [|y l]; simpl.
      * constructor. lia.
      * apply HdRel_inv in Hhd. case_match; constructor; lia.
  Qed.

Lemma merge_sort_cons t l :
  merge_sort Z.le (t :: l) = insert_instant t (merge_sort Z.le l).
Proof.
  apply sorted_unique_Z.
  - apply (Sorted_merge_sort Z.le).
  - apply insert_instant_sorted, (Sorted_merge_sort Z.le).
  - by rewrite insert_instant_perm, !merge_sort_Permutation.
Qed.



(** ** A gap beyond the threshold can be stretched or shrunk *)

Lemma credits_usec_shift d previous l :
  credits_usec (previous + d) ((fun t => t + d) <$> l) = credits_usec previous l.
Proof.
  revert previous. induction l as [|x l IH]; intros previous; simpl; [done|].
  rewrite IH. f_equal. f_equal. lia.
Qed.






(** ** Reordering and shortening the input of [estimate_hours] *)

Section EstimatorOrder.

Variable fromisoformat : string -> option datetime.

Local Abbreviation parse_date := (fun c : flat_commit => fromisoformat (fc_date c)).
Local Abbreviation estimate := (estimate_hours fromisoformat).
Local Abbreviation timeline_of := (timeline_of fromisoformat).

Lemma parse_cons_Some c commits ds :
  mapM parse_date (c :: commits) = Some ds <->
  exists d ds0, fromisoformat (fc_date c) = Some d
                /\ mapM parse_date commits = Some ds0 /\ ds = d :: ds0.
Proof.
  rewrite mapM_Some. split.
  - intros H. inversion H; subst. eexists _, _. rewrite mapM_Some. eauto.
  - intros (d & ds0 & Hd & Hds & ->). constructor; [done|].
    by apply mapM_Some.
Qed.

Lemma mapM_Permutation (l l' : list flat_commit) ds :
  l ≡ₚ l' -> mapM parse_date l = Some ds ->
  exists ds', mapM parse_date l' = Some ds' /\ ds ≡ₚ ds'.
Proof.
  intros Hp. revert ds.
  induction Hp as [|x l l' _ IH|x y l|l l' l'' _ IH1 _ IH2]; intros ds.
  - eauto.
  - intros (d & ds0 & Hd & Hds & ->)%parse_cons_Some.
    destruct (IH _ Hds) as (ds' & Hds' & Hpds').
    exists (d :: ds'). split; [|by constructor].
    apply parse_cons_Some. eauto.
  - intros (d & ds0 & Hd & Hds & ->)%parse_cons_Some.
    apply parse_cons_Some in Hds as (d' & ds1 & Hd' & Hds & ->).
    exists (d' :: d :: ds1). split; [|apply Permutation_swap].
    apply parse_cons_Some. eexists _, _. split_and!; [done| |done].
    apply parse_cons_Some. eauto.
  - intros H. apply IH1 in H as (ds1 & H1 & Hp1).
    apply IH2 in H1 as (ds2 & H2 & Hp2). exists ds2. split; [done|].
    by etrans.
Qed.

Lemma forallb_Permutation {A} (f : A -> bool) (l l' : list A) :
  l ≡ₚ l' -> forallb f l = forallb f l'.
Proof.
  induction 1; simpl; try congruence.
  by rewrite !andb_assoc, (andb_comm (f y)).
Qed.

Lemma comparable_Permutation ds ds' :
  ds ≡ₚ ds' -> comparable ds = comparable ds'.
Proof.
  intros Hp. unfold comparable.
  by rewrite (forallb_Permutation tzaware _ _ Hp),
    (forallb_Permutation (fun d => negb (tzaware d)) _ _ Hp).
Qed.

Lemma timeline_of_Permutation commits commits' ts :
  commits ≡ₚ commits' -> timeline_of commits ts -> timeline_of commits' ts.
Proof.
  intros Hp (ds & Hds & Hcmp & Hts).
  destruct (mapM_Permutation _ _ _ Hp Hds) as (ds' & Hds' & Hpds).
  exists ds'. split_and!; [done| |].
  - by rewrite <- (comparable_Permutation _ _ Hpds).
  - by rewrite <- Hpds.
Qed.

(** What a run of [estimate_hours] that returns has gone through. *)
Lemma estimate_hours_returns commits h :
  estimate commits = inr h ->
  exists ds, mapM parse_date commits = Some ds /\ comparable ds = true.
Proof.
  destruct commits as [|c commits]; [by exists []|].
  unfold estimate_hours.
  destruct (mapM _ (c :: commits)) as [ds|]; [|done].
  destruct (comparable ds) eqn:Hc; [|done]. eauto.
Qed.

Lemma estimate_hours_raises_ValueError commits :
  mapM parse_date commits = None -> estimate commits = inl ValueError.
Proof.
  intros H. destruct commits as [|c commits]; [done|].
  unfold estimate_hours. by rewrite H.
Qed.

Lemma estimate_hours_raises_TypeError commits ds :
  mapM parse_date commits = Some ds -> comparable ds = false ->
  estimate commits = inl TypeError.
Proof.
  intros H Hc. destruct commits as [|c commits].
  - simpl in H. by injection H as <-.
  - unfold estimate_hours. by rewrite H, Hc.
Qed.

Lemma estimate_hours_Permutation commits commits' :
  commits ≡ₚ commits' -> estimate commits = estimate commits'.
Proof.
  intros Hp. destruct (mapM parse_date commits) as [ds|] eqn:Hds.
  - destruct (mapM_Permutation _ _ _ Hp Hds) as (ds' & Hds' & Hpds).
    destruct (comparable ds) eqn:Hc.
    + rewrite (estimate_hours_timeline _ commits (micros <$> ds)),
        (estimate_hours_timeline _ commits' (micros <$> ds)); [done| |].
      * exists ds'. rewrite <- (comparable_Permutation _ _ Hpds).
        split_and!; [done..|]. by rewrite Hpds.
      * by exists ds.
    + rewrite (estimate_hours_raises_TypeError _ _ Hds Hc).
      symmetry. apply (estimate_hours_raises_TypeError _ _ Hds').
      by rewrite <- (comparable_Permutation _ _ Hpds).
  - rewrite (estimate_hours_raises_ValueError _ Hds). symmetry.
    apply estimate_hours_raises_ValueError.
    destruct (mapM parse_date commits') as [ds'|] eqn:Hds'; [|done].
    symmetry in Hp.
    destruct (mapM_Permutation _ _ _ Hp Hds') as (? & ? & _). congruence.
Qed.



End EstimatorOrder.

(** ** The reference values and the general form of the estimate *)

(** C1. [estimate_hours] gives 0 for no commit, 1 hour for one commit,
    1.5 hours for two commits 30 minutes apart, 2 hours for two commits
    5 hours apart and 1 + 1 + 5/6 hours for commits at t, t + 1 h and
    t + 1 h 50 min; in general, for dates that parse to the instants [ts],
    it returns one hour plus, for each consecutive pair of the ascending
    timeline, the gap when it is under two hours and one hour otherwise. *)
Theorem estimate_hours_reference_values
    (fromisoformat : string -> option datetime) :
  estimate_hours fromisoformat [] = inr 0%Q
  /\ (forall c t,
        timeline_of fromisoformat [c] [t] ->
        estimate_hours fromisoformat [c] = inr 1%Q)
  /\ (forall c1 c2 t,
        timeline_of fromisoformat [c1; c2] [t; t + usec 1800] ->
        estimate_hours fromisoformat [c1; c2] = inr (3 # 2)%Q)
  /\ (forall c1 c2 t,
        timeline_of fromisoformat [c1; c2] [t; t + usec 18000] ->
        estimate_hours fromisoformat [c1; c2] = inr 2%Q)
  /\ (forall c1 c2 c3 t,
        timeline_of fromisoformat [c1; c2; c3]
                    [t; t + usec 3600; t + usec 6600] ->
        estimate_hours fromisoformat [c1; c2; c3] = inr (17 # 6)%Q)
  /\ (forall commits ts,
        timeline_of fromisoformat commits ts ->
        exists h, estimate_hours fromisoformat commits = inr h
                  /\ (h == session_gap_hours (merge_sort Z.le ts))%Q).
Proof.
  split_and!.
  - reflexivity.
  - intros c t Ht. rewrite (estimate_hours_sorted _ _ _ Ht); [done|].
    repeat constructor.
  - intros c1 c2 t Ht. rewrite (estimate_hours_sorted _ _ _ Ht).
    + cbn [total_usec credits_usec].
      replace (t + usec 1800 - t) with (usec 1800) by lia. reflexivity.
    + repeat constructor. unfold usec, usec_per_sec. lia.
  - intros c1 c2 t Ht. rewrite (estimate_hours_sorted _ _ _ Ht).
    + cbn [total_usec credits_usec].
      replace (t + usec 18000 - t) with (usec 18000) by lia. reflexivity.
    + repeat constructor. unfold usec, usec_per_sec. lia.
  - intros c1 c2 c3 t Ht. rewrite (estimate_hours_sorted _ _ _ Ht).
    + cbn [total_usec credits_usec].
      replace (t + usec 3600 - t) with (usec 3600) by lia.
      replace (t + usec 6600 - (t + usec 3600)) with (usec 3000)
        by (unfold usec; lia).
      reflexivity.
    + repeat constructor; unfold usec, usec_per_sec; lia.
  - intros commits ts Ht. eexists. split.
    + by apply estimate_hours_timeline.
    + apply session_gap_hours_of_usec.
Qed.

Lemma estimate_hours_reference_values_witness :
  estimate_hours Iso.fromisoformat [c_10h30; c_10h00] = inr (3 # 2)%Q.
Proof.
  pose proof (estimate_hours_reference_values Iso.fromisoformat)
    as (_ & _ & H & _).
  apply (H c_10h30 c_10h00 (usec t_10h00)).
  exists [aware (t_10h00 + 1800); aware t_10h00].
  split; [reflexivity|]. split; [reflexivity|].
  apply Permutation_swap.
Defined.

(** ** Order of the input *)

(** C9. [estimate_hours] returns the same value, or raises the same
    exception, for every reordering of its input: it sorts the parsed
    dates itself. *)
Theorem estimate_hours_permutation_invariant
    (fromisoformat : string -> option datetime)
    (commits commits' : list flat_commit) :
  commits ≡ₚ commits' ->
  estimate_hours fromisoformat commits = estimate_hours fromisoformat commits'.
Proof. apply estimate_hours_Permutation. Qed.

Lemma estimate_hours_permutation_invariant_witness :
  estimate_hours Iso.fromisoformat [c_15h00; c_10h00; c_10h30]
  = estimate_hours Iso.fromisoformat [c_10h00; c_10h30; c_15h00].
Proof.
  apply estimate_hours_permutation_invariant.
  change ([c_15h00] ++ [c_10h00; c_10h30] ≡ₚ [c_10h00; c_10h30] ++ [c_15h00])%list.
  apply Permutation_app_comm.
Defined.

(** ** Monotonicity and long gaps *)




Section Doubles.

Import PrimFloat.
#[local] Set Warnings "-inexact-float".

(** On whole seconds the doubles agree with the exact values: the
    reference values, of which 1 + 1 + 5/6 comes out as the double
    nearest to it, and the two estimates of the example above. *)
Example estimate_hours_double_ex :
  estimate_hours_double Iso.fromisoformat [] = inr 0%float
  /\ estimate_hours_double Iso.fromisoformat [c_10h00] = inr 1%float
  /\ estimate_hours_double Iso.fromisoformat [c_10h00; c_10h30] = inr 1.5%float
  /\ estimate_hours_double Iso.fromisoformat [c_10h00; c_15h00] = inr 2%float
  /\ estimate_hours_double Iso.fromisoformat [c_10h00; c_11h00; c_11h50]
     = inr 2.8333333333333335%float
  /\ estimate_hours_double Iso.fromisoformat [c_10h00; c_10h30; c_15h00]
     = inr 2.5%float.
Proof. split_and!; by vm_compute. Qed.

End Doubles.

(** ** Identity matching *)

Lemma append_String c (s1 s2 : string) :
  String c s1 ++ s2 = String c (s1 ++ s2).
Proof. reflexivity. Qed.

Lemma append_empty_l (s : string) : "" ++ s = s.
Proof. reflexivity. Qed.

Lemma prefix_app (p s : string) :
  String.prefix p s = true <-> exists post, s = p ++ post.
Proof.
  revert s. induction p as [|c p IH]; intros s.
  - split; [eauto|]. by destruct s.
  - setoid_rewrite append_String. destruct s as [|c' s]; simpl.
    + split; [done|]. by intros [? ?].
    + destruct (ascii_dec c c') as [->|Hne].
      * rewrite IH. split; intros [post H]; exists post; congruence.
      * split; [done|]. intros [post H]. congruence.
Qed.

Lemma contains_occurs_in (sub s : string) :
  Py.contains sub s = true <-> occurs_in sub s.
Proof.
  unfold occurs_in. induction s as [|c s IH].
  - cbn [Py.contains]. rewrite orb_false_r, prefix_app. split.
    + intros [post H]. by exists "", post.
    + intros ([|? ?] & post & H); [by exists post|done].
  - cbn [Py.contains]. rewrite orb_true_iff, IH, prefix_app. split.
    + intros [[post H]|(pre & post & ->)].
      * by exists "", post.
      * by exists (String c pre), post.
    + intros ([|c' pre] & post & H).
      * left. by exists post.
      * right. exists pre, post. rewrite append_String in H. congruence.
Qed.

Section Identity.

Variables MY_EMAILS MY_NAMES : gset string.

Lemma is_me_spec name email :
  is_me MY_EMAILS MY_NAMES name email = true <->
  email ∈ MY_EMAILS \/ name ∈ MY_NAMES
  \/ exists my_id, my_id ∈ MY_EMAILS /\ occurs_in my_id email.
Proof.
  unfold is_me. destruct (bool_decide _ || bool_decide _) eqn:Hfast.
  - apply orb_true_iff in Hfast as [H|H]; apply bool_decide_eq_true in H; tauto.
  - apply orb_false_iff in Hfast as [H1 H2].
    apply bool_decide_eq_false in H1, H2.
    rewrite existsb_exists. split.
    + intros (my_id & Hin & Hc). right. right. exists my_id.
      rewrite <- contains_occurs_in. split; [|done].
      by apply elem_of_elements, list_elem_of_In.
    + intros [?|[?|(my_id & Hin & Hc)]]; [done..|]. exists my_id.
      rewrite contains_occurs_in. split; [|done].
      by apply list_elem_of_In, elem_of_elements.
Qed.

End Identity.

(** C4. [is_me] folds no case. The parser hands it the email of the
    commit in lower case, which it tests against the configured emails as
    they were written: with the target "A@x.com" the author email
    "A@x.com" arrives as "a@x.com", equal to the target up to case, and is
    rejected, so the commit is dropped; written "a@x.com" the same target
    keeps it. With the target email "a@x.com" the three reference answers
    hold. *)
Theorem is_me_misses_capital_target :
  Py.lower "A@x.com" = "a@x.com"
  /\ is_me {["A@x.com"]} ∅ "B" (Py.lower "A@x.com") = false
  /\ parse_git_log {["A@x.com"]} ∅ (Some log_capital) = []
  /\ parse_git_log {["a@x.com"]} ∅ (Some log_capital)
     = [ {| hash := "k1"; date := "2024-01-01T10:00:00+00:00";
            name := "B"; email := "a@x.com";
            additions := 3; deletions := 1; files := 1 |} ]
  /\ is_me {["a@x.com"]} ∅ "A" "a@x.com" = true
  /\ is_me {["a@x.com"]} ∅ "B" "b@y.com" = false
  /\ is_me {["a@x.com"]} ∅ "B" "a@x.com.test" = true.
Proof. split_and!; by vm_compute. Qed.

(** When the configured emails are written in lower case, the test on the
    lower-cased email of a commit is an equality up to case. *)
Lemma is_me_lower_case_targets (MY_EMAILS MY_NAMES : gset string) :
  (forall my_id, my_id ∈ MY_EMAILS -> Py.lower my_id = my_id) ->
  forall name email,
    is_me MY_EMAILS MY_NAMES name (Py.lower email) = true <->
    (exists my_id, my_id ∈ MY_EMAILS /\ Py.lower email = Py.lower my_id)
    \/ name ∈ MY_NAMES
    \/ exists my_id, my_id ∈ MY_EMAILS /\ occurs_in my_id (Py.lower email).
Proof.
  intros Hlow name email. rewrite is_me_spec. split.
  - intros [Hin|[?|?]]; [left|tauto..].
    exists (Py.lower email). split; [done|]. symmetry. by apply Hlow.
  - intros [(my_id & Hin & Heq)|[?|?]]; [left|tauto..].
    rewrite Heq, Hlow; done.
Qed.

(** ** Extensions *)

Lemma rfind_from_found c s i found :
  Py.rfind_from c s i found = found
  \/ (i <= Py.rfind_from c s i found
      /\ String.get (Z.to_nat (Py.rfind_from c s i found - i)) s = Some c).
Proof.
  revert i found. induction s as [|c' s IH]; intros i found; simpl.
  - by left.
  - destruct (IH (i + 1) (if Ascii.eqb c' c then i else found)) as [->|[Hle Hget]].
    + destruct (Ascii.eqb_spec c' c) as [->|_]; [right|by left].
      split; [lia|]. by rewrite Z.sub_diag.
    + right. split; [lia|].
      replace (Z.to_nat (Py.rfind_from c s (i + 1) (if Ascii.eqb c' c then i else found) - i))
        with (S (Z.to_nat (Py.rfind_from c s (i + 1) (if Ascii.eqb c' c then i else found) - (i + 1))))
        by lia.
      done.
Qed.

Lemma rfind_found c s :
  Py.rfind c s = -1
  \/ (0 <= Py.rfind c s /\ String.get (Z.to_nat (Py.rfind c s)) s = Some c).
Proof.
  unfold Py.rfind. destruct (rfind_from_found c s 0 (-1)) as [?|[? Hget]]; [by left|].
  right. by rewrite Z.sub_0_r in Hget.
Qed.

Lemma substring_from_get n s c :
  String.get n s = Some c ->
  exists r, String.substring n (String.length s - n) s = String c r.
Proof.
  revert n. induction s as [|a s IH]; intros n; [by destruct n|].
  destruct n as [|n]; simpl.
  - intros [= ->]. eauto.
  - apply IH.
Qed.

(** The extension [splitext] gives is empty or starts with a dot. *)
Lemma splitext_ext_shape p :
  snd (Py.splitext p) = "" \/ exists r, snd (Py.splitext p) = String "." r.
Proof.
  unfold Py.splitext.
  destruct (Z.gtb_spec (Py.rfind "." p) (Py.rfind "/" p)) as [Hgt|_]; [|by left].
  case_match; [by left|]. right. simpl. unfold Py.slice_from.
  destruct (rfind_found "." p) as [Hd|[_ Hget]].
  - destruct (rfind_found "/" p) as [?|[? _]]; lia.
  - by apply substring_from_get.
Qed.

Lemma lower_ext_not_dockerfile file :
  Py.lower (snd (Py.splitext file)) <> "dockerfile".
Proof.
  destruct (splitext_ext_shape file) as [->|[r ->]]; discriminate.
Qed.

Lemma count_file_no_ext languages file :
  snd (Py.splitext file) = "" -> count_file languages file = languages.
Proof. unfold count_file. by intros ->. Qed.

Lemma fold_count_file_filter lines languages :
  fold_left count_file lines languages
  = fold_left count_file
      (filter (fun file => snd (Py.splitext file) <> "") lines) languages.
Proof.
  revert languages. induction lines as [|file lines IH]; intros languages; [done|].
  rewrite filter_cons. case_decide as Hext; simpl.
  - apply IH.
  - rewrite count_file_no_ext; [apply IH|].
    by destruct (decide (snd (Py.splitext file) = "")).
Qed.

(** C10. No file without extension is counted by the language snapshot,
    and the table entry keyed "dockerfile" is never used: the extension
    taken from a file name is empty or starts with a dot, and for
    "Dockerfile" it is empty, so that file is counted for no language. *)
Theorem dockerfile_entry_unreachable :
  (forall file, Py.lower (snd (Py.splitext file)) <> "dockerfile")
  /\ snd (Py.splitext "Dockerfile") = ""
  /\ (forall languages file,
        snd (Py.splitext file) = "" -> count_file languages file = languages)
  /\ (forall text,
        get_current_languages (Some text)
        = fold_left count_file
            (filter (fun file => snd (Py.splitext file) <> "")
                    (Py.splitlines text)) ∅)
  /\ (forall languages file,
        count_file languages file
        = match delete "dockerfile" EXTENSIONS
                !! Py.lower (snd (Py.splitext file)) with
          | Some lang => bump lang 1 languages
          | None => languages
          end)
  /\ get_current_languages (Some ("src/Dockerfile" ++ LF ++ "Dockerfile" ++ LF)) = ∅.
Proof.
  split_and!.
  - apply lower_ext_not_dockerfile.
  - reflexivity.
  - apply count_file_no_ext.
  - intros text. apply fold_count_file_filter.
  - intros languages file. unfold count_file.
    rewrite lookup_delete_ne; [done|].
    intros Heq. by apply (lower_ext_not_dockerfile file).
  - by vm_compute.
Qed.

Lemma dockerfile_entry_unreachable_witness :
  count_file {["Python" := 3]} "docker/Dockerfile" = {["Python" := 3]}.
Proof.
  pose proof dockerfile_entry_unreachable as (_ & _ & H & _).
  apply H. reflexivity.
Defined.

(** ** What [main] emits *)

Section Main.

Variables MY_EMAILS MY_NAMES : gset string.
Variable fromisoformat : string -> option datetime.

Local Abbreviation process_repo := (process_repo MY_EMAILS MY_NAMES).
Local Abbreviation matched_commits := (matched_commits MY_EMAILS MY_NAMES).
Local Abbreviation run := (main MY_EMAILS MY_NAMES fromisoformat).

Lemma all_commits_fold found acc :
  all_commits (fold_left process_repo found acc)
  = (all_commits acc ++ matched_commits found)%list.
Proof.
  revert acc. induction found as [|r found IH]; intros acc; simpl.
  - by rewrite app_nil_r.
  - rewrite IH. simpl. by rewrite <- app_assoc.
Qed.

Lemma all_commits_main found :
  all_commits (fold_left process_repo found (mk_accum [] ∅ ∅))
  = matched_commits found.
Proof. by rewrite all_commits_fold. Qed.

(** [main] writes a dataset exactly when [estimate_hours] returns on
    the matched commits; the dataset lists them as accumulated. *)
Lemma main_returns found now h :
  estimate_hours fromisoformat (matched_commits found) = inr h ->
  exists ds, run found now = inr ds
             /\ detailed_commits ds = matched_commits found
             /\ total_hours_estimated ds = h.
Proof.
  intros H. unfold main. rewrite all_commits_main, H. eauto.
Qed.

Lemma main_returned found now ds :
  run found now = inr ds ->
  detailed_commits ds = matched_commits found
  /\ estimate_hours fromisoformat (matched_commits found)
     = inr (total_hours_estimated ds).
Proof.
  unfold main. rewrite all_commits_main.
  destruct (estimate_hours _ _) as [e|h]; [done|]. by intros [= <-].
Qed.

End Main.

(** C2. [total_hours_estimated] is the estimate over the matched commits
    of all repositories taken together: when their dates parse to the
    instants [ts], the run writes a dataset whose total is the session-gap
    estimate of the ascending timeline of [ts]. Two repositories with one
    matched commit each, 30 minutes apart, give 1.5 hours, where each
    repository alone gives 1 hour. *)
Theorem total_hours_over_merged_timeline :
  (forall MY_EMAILS MY_NAMES fromisoformat found now ts,
      timeline_of fromisoformat (matched_commits MY_EMAILS MY_NAMES found) ts ->
      exists ds, main MY_EMAILS MY_NAMES fromisoformat found now = inr ds
                 /\ estimate_hours fromisoformat
                      (matched_commits MY_EMAILS MY_NAMES found)
                    = inr (total_hours_estimated ds)
                 /\ (total_hours_estimated ds
                     == session_gap_hours (merge_sort Z.le ts))%Q)
  /\ (exists ds, main me ∅ Iso.fromisoformat [repo_alpha; repo_beta] "now" = inr ds
                 /\ total_hours_estimated ds = (3 # 2)%Q)
  /\ estimate_hours Iso.fromisoformat (matched_commits me ∅ [repo_alpha]) = inr 1%Q
  /\ estimate_hours Iso.fromisoformat (matched_commits me ∅ [repo_beta]) = inr 1%Q.
Proof.
  split_and!.
  - intros MY_EMAILS MY_NAMES fromisoformat found now ts Ht.
    pose proof (estimate_hours_timeline _ _ _ Ht) as Hest.
    destruct (main_returns _ _ _ _ now _ Hest) as (ds & Hmain & _ & Htotal).
    exists ds. split_and!; [done|by rewrite Htotal|].
    rewrite Htotal. apply session_gap_hours_of_usec.
  - vm_compute. eexists. split; reflexivity.
  - by vm_compute.
  - by vm_compute.
Qed.

Lemma total_hours_over_merged_timeline_witness :
  exists ds, main me ∅ Iso.fromisoformat [repo_beta; repo_alpha] "now" = inr ds
             /\ estimate_hours Iso.fromisoformat
                  (matched_commits me ∅ [repo_beta; repo_alpha])
                = inr (total_hours_estimated ds)
             /\ (total_hours_estimated ds
                 == session_gap_hours
                      (merge_sort Z.le [usec (t_10h00 + 1800); usec t_10h00]))%Q.
Proof.
  pose proof total_hours_over_merged_timeline as (H & _).
  apply H.
  exists [aware (t_10h00 + 1800); aware t_10h00].
  split; [reflexivity|]. split; reflexivity.
Defined.

(** ** Order of the emitted commits *)

(** C5, as stated, fails: a repository whose log lists a commit of 11:00
    before one of 10:00 yields a dataset that lists them in that order. *)
Lemma detailed_commits_not_sorted :
  ~ (forall MY_EMAILS MY_NAMES fromisoformat found now ds,
        main MY_EMAILS MY_NAMES fromisoformat found now = inr ds ->
        chronological fromisoformat (detailed_commits ds)).
Proof.
  intros H.
  destruct (main me ∅ Iso.fromisoformat [repo_A] "now") as [e|ds] eqn:Hmain;
    [by vm_compute in Hmain|].
  pose proof (H _ _ _ _ _ _ Hmain) as (dts & Hparse & Hsorted).
  apply main_returned in Hmain as [Hlist _]. rewrite Hlist in Hparse.
  vm_compute in Hparse. injection Hparse as <-.
  apply Sorted_inv in Hsorted as [_ Hhd]. apply HdRel_inv in Hhd.
  vm_compute in Hhd. by apply Hhd.
Qed.

(** C5, amended. The dataset lists the matched commits as they were
    accumulated: repository after repository in the order of discovery,
    each repository's commits in the order of its log. No sort is applied
    to that list; [estimate_hours] sorts the dates it parsed from it. *)
Theorem detailed_commits_in_extraction_order :
  forall MY_EMAILS MY_NAMES fromisoformat found now ds,
    main MY_EMAILS MY_NAMES fromisoformat found now = inr ds ->
    detailed_commits ds = matched_commits MY_EMAILS MY_NAMES found.
Proof. intros * H. by apply main_returned in H as [? _]. Qed.

Lemma detailed_commits_in_extraction_order_witness :
  exists ds, main me ∅ Iso.fromisoformat [repo_A] "now" = inr ds
             /\ detailed_commits ds = matched_commits me ∅ [repo_A].
Proof.
  eexists. split; [reflexivity|].
  by apply (detailed_commits_in_extraction_order me ∅ Iso.fromisoformat
              [repo_A] "now").
Defined.

(** ** Change lines *)

(** Every occurrence of [c] lies at or before the index [rfind] gives. *)
Lemma rfind_from_last c s i found k :
  String.get k s = Some c -> i + Z.of_nat k <= Py.rfind_from c s i found.
Proof.
  revert i found k. induction s as [|c' s IH]; intros i found k; [by destruct k|].
  destruct k as [|k]; simpl.
  - intros [= ->]. rewrite Ascii.eqb_refl.
    destruct (rfind_from_found c s (i + 1) i) as [->|[? _]]; lia.
  - intros Hget. specialize (IH (i + 1) (if Ascii.eqb c' c then i else found) k Hget).
    lia.
Qed.

Lemma get_substring_whole s m :
  String.get m (String.substring 0 (String.length s) s) = String.get m s.
Proof.
  revert m. induction s as [|a s IH]; intros m; [done|].
  destruct m as [|m]; simpl; [done|apply IH].
Qed.

Lemma get_substring_from n s m :
  String.get m (String.substring n (String.length s - n) s)
  = String.get (n + m) s.
Proof.
  revert n. induction s as [|a s IH]; intros n.
  - destruct n, m; reflexivity.
  - destruct n as [|n].
    + rewrite Nat.sub_0_r. apply get_substring_whole.
    + simpl. apply IH.
Qed.

Lemma get_lower s m :
  String.get m (Py.lower s) = Py.lower_char <$> String.get m s.
Proof.
  revert m. induction s as [|a s IH]; intros m; [done|].
  destruct m as [|m]; simpl; [done|apply IH].
Qed.

Lemma lower_char_dot c : Py.lower_char c = "."%char -> c = "."%char.
Proof.
  destruct c as [[] [] [] [] [] [] [] []]; vm_compute; congruence.
Qed.

(** Past its first character the extension holds no dot, in lower case
    either. *)
Lemma lower_ext_one_dot p m :
  (1 <= m)%nat ->
  String.get m (Py.lower (snd (Py.splitext p))) <> Some "."%char.
Proof.
  intros Hm. rewrite get_lower. unfold Py.splitext.
  destruct (Z.gtb_spec (Py.rfind "." p) (Py.rfind "/" p)) as [Hgt|_];
    [|by destruct m].
  case_match; [by destruct m|]. simpl. unfold Py.slice_from.
  rewrite get_substring_from.
  destruct (String.get _ p) as [c|] eqn:Hget; [|done].
  simpl. intros [= Hc%lower_char_dot]. subst c.
  apply (rfind_from_last _ _ 0 (-1)) in Hget. fold (Py.rfind "." p) in Hget.
  destruct (rfind_found "/" p) as [?|[? _]]; lia.
Qed.

Lemma lower_ext_not_minified file :
  Py.lower (snd (Py.splitext file)) <> ".min.js"
  /\ Py.lower (snd (Py.splitext file)) <> ".min.css".
Proof.
  split; intros Heq; apply (lower_ext_one_dot file 4); [lia| |lia|];
    by rewrite Heq.
Qed.

(** A change line whose file is ignored by its extension leaves the
    commit as it was. *)
Lemma numstat_line_ignored_ext c line added deleted rest :
  Py.split_ws 2 line = [added; deleted; rest] ->
  Py.lower (snd (Py.splitext (Py.strip rest))) ∈ IGNORE_EXTENSIONS ->
  numstat_line c line = c.
Proof.
  intros Hsplit Hext. unfold numstat_line. rewrite Hsplit.
  case_bool_decide; [done|]. by rewrite bool_decide_eq_true_2.
Qed.

(** A change line whose first count is not a number leaves the commit as
    it was. *)
Lemma numstat_line_bad_added c line added deleted rest :
  Py.split_ws 2 line = [added; deleted; rest] ->
  added <> "-" -> Py.int added = None ->
  numstat_line c line = c.
Proof.
  intros Hsplit Hdash Hint. unfold numstat_line. rewrite Hsplit, Hint.
  apply String.eqb_neq in Hdash. rewrite Hdash. simpl.
  by repeat case_bool_decide.
Qed.

(** A line other than a header never ends the parse. *)
Lemma parse_lines_change_line MY_EMAILS MY_NAMES line rest c commits :
  Py.startswith "HEADER|" line = false ->
  Py.is_empty (Py.strip line) = false ->
  parse_lines MY_EMAILS MY_NAMES (line :: rest) (Some c) commits
  = parse_lines MY_EMAILS MY_NAMES rest (Some (numstat_line c line)) commits.
Proof. intros Hh Hb. simpl. by rewrite Hh, Hb. Qed.

(** C3. The ignore-set holds ".min.js", but no file name has it as its
    extension: the extension [splitext] takes from "static/app.min.js" is
    ".js", which is not in the set, and the change line of the minified
    file is counted, 10 additions, 5 deletions and one file. *)
Theorem minified_asset_is_counted :
  ".min.js" ∈ IGNORE_EXTENSIONS
  /\ (forall file, Py.lower (snd (Py.splitext file)) <> ".min.js"
                   /\ Py.lower (snd (Py.splitext file)) <> ".min.css")
  /\ snd (Py.splitext "static/app.min.js") = ".js"
  /\ (forall c,
        numstat_line c (stat "10" "5" "static/app.min.js")
        = add_file (add_deletions 5 (add_additions 10 c)))
  /\ parse_git_log me ∅ (Some log_minified)
     = [ {| hash := "m1"; date := "2024-01-01T10:00:00+00:00";
            name := "Me"; email := "me@x.com";
            additions := 10; deletions := 5; files := 1 |} ].
Proof.
  split_and!.
  - by vm_compute.
  - apply lower_ext_not_minified.
  - reflexivity.
  - intros c. by vm_compute.
  - by vm_compute.
Qed.

(** C6. A change line whose first count is a number and whose second is
    not leaves the first count added to the commit: after the line
    "10 x src/main.py" the commit has 10 additions more, and the parse
    goes on with the next line. *)
Theorem malformed_line_keeps_additions :
  Py.int "x" = None
  /\ (forall c,
        numstat_line c (stat "10" "x" "src/main.py") = add_additions 10 c)
  /\ parse_git_log me ∅ (Some log_malformed)
     = [ {| hash := "x1"; date := "2024-01-01T10:00:00+00:00";
            name := "Me"; email := "me@x.com";
            additions := 12; deletions := 1; files := 1 |} ].
Proof.
  split_and!.
  - reflexivity.
  - intros c. by vm_compute.
  - by vm_compute.
Qed.

(** ** Signs of the counts *)

Lemma numstat_line_nonneg c line :
  unsigned_line line = true -> nonneg_commit c ->
  nonneg_commit (numstat_line c line).
Proof.
  unfold unsigned_line, numstat_line, nonneg_field, nonneg_commit.
  intros Hline [Ha Hd].
  destruct (Py.split_ws 2 line) as [|added [|deleted [|rest tl]]]; [done..|].
  apply andb_true_iff in Hline as [Hadd Hdel].
  repeat case_bool_decide; [done..|].
  destruct (String.eqb added "-"), (String.eqb deleted "-"),
    (Py.int added) as [n|], (Py.int deleted) as [m|]; simpl; lia.
Qed.

Lemma new_commit_nonneg line c : new_commit line = Some c -> nonneg_commit c.
Proof.
  unfold new_commit, nonneg_commit. intros H.
  repeat case_match; simplify_eq; simpl; lia.
Qed.

Section Signs.

Variables MY_EMAILS MY_NAMES : gset string.

Lemma save_nonneg current commits :
  (forall c, current = Some c -> nonneg_commit c) ->
  Forall nonneg_commit commits ->
  Forall nonneg_commit (save MY_EMAILS MY_NAMES current commits).
Proof.
  intros Hcur Hall. unfold save. destruct current as [c|]; [|done].
  case_match; [|done]. apply Forall_app. split; [done|].
  apply Forall_singleton. by apply Hcur.
Qed.

Lemma parse_lines_nonneg lines current commits :
  Forall (fun line => unsigned_line line = true) lines ->
  (forall c, current = Some c -> nonneg_commit c) ->
  Forall nonneg_commit commits ->
  Forall nonneg_commit (parse_lines MY_EMAILS MY_NAMES lines current commits).
Proof.
  intros Hlines. revert current commits.
  induction Hlines as [|line lines Hline _ IH]; intros current commits Hcur Hall.
  - by apply save_nonneg.
  - cbn [parse_lines]. destruct (Py.startswith _ line).
    + destruct (new_commit line) as [c|] eqn:Hnew; [|by apply save_nonneg].
      apply IH; [|by apply save_nonneg].
      intros ? [= <-]. by eapply new_commit_nonneg.
    + destruct current as [c|]; [|by apply IH].
      case_match; apply IH; try done.
      intros ? [= <-]. apply numstat_line_nonneg; [done|]. by apply Hcur.
Qed.

Lemma parse_git_log_nonneg stdout :
  (forall text, stdout = Some text ->
     Forall (fun line => unsigned_line line = true) (Py.splitlines text)) ->
  Forall nonneg_commit (parse_git_log MY_EMAILS MY_NAMES stdout).
Proof.
  intros H. destruct stdout as [text|]; simpl; [|done].
  apply parse_lines_nonneg; [by apply H|done|done].
Qed.

Lemma matched_commits_impact found c :
  c ∈ matched_commits MY_EMAILS MY_NAMES found ->
  fc_impact c = fc_additions c + fc_deletions c.
Proof.
  unfold matched_commits. rewrite list_elem_of_In, in_flat_map.
  intros (r & _ & Hc). apply list_elem_of_In, list_elem_of_fmap in Hc as (c0 & -> & _).
  reflexivity.
Qed.

Lemma matched_commits_nonneg found c :
  unsigned_counts found ->
  c ∈ matched_commits MY_EMAILS MY_NAMES found ->
  0 <= fc_additions c /\ 0 <= fc_deletions c.
Proof.
  unfold matched_commits. rewrite list_elem_of_In, in_flat_map.
  intros Hu (r & Hr & Hc).
  apply list_elem_of_In, list_elem_of_fmap in Hc as (c0 & -> & Hc0).
  assert (Hall : Forall nonneg_commit
                   (parse_git_log MY_EMAILS MY_NAMES (git_log r))).
  { apply parse_git_log_nonneg. intros text Htext.
    apply (Hu r text); [by apply list_elem_of_In|done]. }
  rewrite Forall_forall in Hall. exact (Hall c0 Hc0).
Qed.

End Signs.

(** C8, as stated, fails: a change line "-5 -3 src/main.py" is read with
    [int], which accepts the sign, and the commit is emitted with -5
    additions. *)
Lemma additions_can_be_negative :
  ~ (forall MY_EMAILS MY_NAMES fromisoformat found now ds c,
        main MY_EMAILS MY_NAMES fromisoformat found now = inr ds ->
        c ∈ detailed_commits ds ->
        0 <= fc_additions c /\ 0 <= fc_deletions c
        /\ fc_impact c = fc_additions c + fc_deletions c).
Proof.
  intros H.
  destruct (main me ∅ Iso.fromisoformat [repo_signed] "now") as [e|ds] eqn:Hmain;
    [by vm_compute in Hmain|].
  pose proof (main_returned _ _ _ _ _ _ Hmain) as [Hlist _].
  destruct (H _ _ _ _ _ _
              {| fc_date := "2024-01-01T10:00:00+00:00"; fc_repo := "signed";
                 fc_additions := -5; fc_deletions := -3; fc_impact := -8 |}
              Hmain) as [Hneg _].
  - rewrite Hlist. vm_compute. apply list_elem_of_here.
  - simpl in Hneg. lia.
Qed.

(** C8, amended. Every emitted commit has [impact = additions +
    deletions]; its additions and deletions are not negative provided no
    line of the raw histories has a numeric field that [int] reads as a
    negative number (git prints unsigned counts, or "-" for a binary
    file). *)
Theorem emitted_commit_counts :
  forall MY_EMAILS MY_NAMES fromisoformat found now ds c,
    main MY_EMAILS MY_NAMES fromisoformat found now = inr ds ->
    c ∈ detailed_commits ds ->
    fc_impact c = fc_additions c + fc_deletions c
    /\ (unsigned_counts found ->
        0 <= fc_additions c /\ 0 <= fc_deletions c).
Proof.
  intros * Hmain Hc. apply main_returned in Hmain as [Hlist _].
  rewrite Hlist in Hc. split.
  - by eapply matched_commits_impact.
  - intros Hu. by eapply matched_commits_nonneg.
Qed.

Lemma Forall_forallb {A} (f : A -> bool) (l : list A) :
  forallb f l = true -> Forall (fun x => f x = true) l.
Proof.
  induction l as [|x l IH]; simpl; [constructor|].
  intros [Hx Hl]%andb_true_iff. constructor; [done|by apply IH].
Qed.

Lemma emitted_commit_counts_witness :
  unsigned_counts [repo_A]
  /\ fc_impact c_A_11h00 = fc_additions c_A_11h00 + fc_deletions c_A_11h00
  /\ 0 <= fc_additions c_A_11h00 /\ 0 <= fc_deletions c_A_11h00.
Proof.
  assert (Hu : unsigned_counts [repo_A]).
  { intros r text Hr Htext. apply list_elem_of_singleton in Hr. subst r.
    injection Htext as <-. apply Forall_forallb. by vm_compute. }
  split; [exact Hu|].
  destruct (emitted_commit_counts me ∅ Iso.fromisoformat [repo_A] "now"
              (mk_dataset (matched_commits me ∅ [repo_A])
                 {["Python" := 1]} {["A" := 2]} 2%Q "now") c_A_11h00)
    as [Himpact Hsigns].
  - by vm_compute.
  - vm_compute. apply list_elem_of_here.
  - split; [exact Himpact|exact (Hsigns Hu)].
Defined.

(** ** The primitives on examples *)

Example splitlines_ex :
  Py.splitlines ("a" ++ LF ++ CR ++ LF ++ "b c" ++ LF) = ["a"; ""; "b c"].
Proof. reflexivity. Qed.

Example split_ws_ex :
  Py.split_ws 2 ("10" ++ TAB ++ "5" ++ TAB ++ "docs/my notes.md ")
  = ["10"; "5"; "docs/my notes.md "].
Proof. reflexivity. Qed.

Example splitext_ex :
  Py.splitext "a/b.tar.GZ" = ("a/b.tar", ".GZ")
  /\ Py.splitext ".bashrc" = (".bashrc", "")
  /\ Py.splitext "pkg.d/README" = ("pkg.d/README", "").
Proof. by vm_compute. Qed.

Example int_ex :
  Py.int "10" = Some 10 /\ Py.int "-5" = Some (-5) /\ Py.int "1_000" = Some 1000
  /\ Py.int "-" = None /\ Py.int "1.5" = None /\ Py.int "" = None.
Proof. by vm_compute. Qed.

Example fromisoformat_ex :
  Iso.fromisoformat "2024-01-01T10:00:00+00:00" = Some (aware t_10h00)
  /\ Iso.fromisoformat "2024-01-01T12:00:00+02:00" = Some (aware t_10h00)
  /\ Iso.fromisoformat "yesterday" = None.
Proof. by vm_compute. Qed.

(** The end-to-end scenario of the specification: two matched commits one
    hour apart in one repository, a foreign commit in another. *)
Example end_to_end_ex :
  exists ds,
    main me ∅ Iso.fromisoformat
      [ repo_A;
        {| repo_path := "/home/me/Development/B";
           git_log := Some (hdr "f1" "2024-01-01T10:10:00+00:00" "Eve" "eve@y.org"
                            ++ LF ++ stat "9" "9" "x.c");
           git_ls_files := None |} ] "now" = inr ds
    /\ length (detailed_commits ds) = 2%nat
    /\ repos ds = {["A" := 2]}
    /\ total_hours_estimated ds = 2%Q.
Proof. vm_compute. eexists. split_and!; reflexivity. Qed.

(** [splitlines] also breaks at a form feed, so a header whose author name
    holds one continues on a line of its own, which is then read as a
    change line. *)
Example form_feed_in_author_name_ex :
  Py.splitlines ("a" ++ FF ++ "b") = ["a"; "b"]
  /\ parse_git_log me ∅
       (Some (hdr "s1" "2024-01-01T10:00:00+00:00"
                  ("Me|me@x.com" ++ FF ++ "-5" ++ TAB ++ "-3" ++ TAB ++ "x")
                  "eve@y.org"))
     = [ {| hash := "s1"; date := "2024-01-01T10:00:00+00:00";
            name := "Me"; email := "me@x.com";
            additions := -5; deletions := -3; files := 1 |} ].
Proof. by vm_compute. Qed.


(** ** Repository discovery *)

Lemma tree_ind_nested (P : tree -> Prop) :
  (forall subdirs, Forall (fun entry => P (snd entry)) subdirs -> P (Dir subdirs)) ->
  forall t, P t.
Proof.
  intros Hstep. fix IH 1. intros [subdirs]. apply Hstep.
  induction subdirs as [|[n sub] rest IHrest]; constructor; [apply IH|apply IHrest].
Qed.

Lemma distinct_names_Dir subdirs :
  distinct_names (Dir subdirs) <->
  NoDup subdirs.*1 /\ Forall (fun entry => distinct_names (snd entry)) subdirs.
Proof.
  cbn [distinct_names]. apply and_iff_compat_l.
  induction subdirs as [|entry rest IH].
  - split; [constructor|done].
  - rewrite Forall_cons, <- IH. reflexivity.
Qed.

Section Pruning.

Context {A : Type}.
Implicit Types (l : list (string * A)) (e : string * A).

Lemma elem_of_remove_first_1 skip l e :
  e ∈ remove_first skip l -> e ∈ l.
Proof.
  induction l as [|[n below] rest IH]; simpl; [done|].
  destruct (String.eqb_spec n skip) as [->|Hne].
  - by apply list_elem_of_further.
  - intros [->|He]%elem_of_cons; [apply list_elem_of_here|].
    by apply list_elem_of_further, IH.
Qed.

Lemma NoDup_remove_first skip l :
  NoDup l.*1 -> NoDup (remove_first skip l).*1.
Proof.
  induction l as [|[n below] rest IH]; simpl; [done|].
  intros [Hn Hrest]%NoDup_cons.
  destruct (String.eqb_spec n skip) as [->|Hne]; [done|].
  csimpl. apply NoDup_cons. split; [|by apply IH].
  intros (e & Heq & He)%list_elem_of_fmap. apply Hn.
  apply list_elem_of_fmap. exists e. split; [done|].
  by eapply elem_of_remove_first_1.
Qed.

Lemma elem_of_remove_first skip l e :
  NoDup l.*1 ->
  e ∈ remove_first skip l <-> e ∈ l /\ fst e <> skip.
Proof.
  induction l as [|[n below] rest IH]; simpl.
  - intros _. split; [by intros ?%elem_of_nil|by intros [?%elem_of_nil _]].
  - intros [Hn Hrest]%NoDup_cons.
    destruct (String.eqb_spec n skip) as [->|Hne].
    + split.
      * intros He. split; [by apply list_elem_of_further|].
        intros Heq. apply Hn, list_elem_of_fmap. by exists e.
      * intros [[->|He]%elem_of_cons Hne]; [done|done].
    + rewrite !elem_of_cons, (IH Hrest). split.
      * intros [->|[? ?]]; [split; [by left|done]|split; [by right|done]].
      * intros [[->|?] ?]; [by left|by right].
Qed.

Lemma elem_of_prune_skips skips l e :
  NoDup l.*1 ->
  e ∈ fold_left (fun ds skip => remove_first skip ds) skips l
  <-> e ∈ l /\ fst e ∉ skips.
Proof.
  revert l. induction skips as [|skip skips IH]; intros l Hl; simpl.
  - split; [intros ?; split; [done|by intros ?%elem_of_nil]|by intros [? _]].
  - rewrite (IH _ (NoDup_remove_first skip l Hl)), (elem_of_remove_first _ _ _ Hl).
    rewrite not_elem_of_cons. tauto.
Qed.

Lemma elem_of_prune l e :
  NoDup l.*1 -> e ∈ prune l <-> e ∈ l /\ fst e ∉ SKIP_DIRS.
Proof. apply elem_of_prune_skips. Qed.

End Pruning.

Lemma fmap_fst_paired {A B} (g : string * A -> B) (l : list (string * A)) :
  ((fun entry => (fst entry, g entry)) <$> l).*1 = l.*1.
Proof. induction l as [|e l IH]; csimpl; [done|]. by rewrite IH. Qed.

Lemma walk_repos_Dir dirpath subdirs :
  walk_repos dirpath (Dir subdirs)
  = if bool_decide (".git" ∈ subdirs.*1) then [dirpath]
    else mjoin (snd <$> prune
           ((fun entry : string * tree =>
               (fst entry,
                walk_repos (path_join dirpath (fst entry)) (snd entry)))
              <$> subdirs)).
Proof. reflexivity. Qed.

Lemma walk_repos_iff_repo_at t :
  distinct_names t ->
  forall p q, q ∈ walk_repos p t <-> repo_at p t q.
Proof.
  induction t as [subdirs IH] using tree_ind_nested.
  intros [Hnames Hsub]%distinct_names_Dir p q.
  rewrite walk_repos_Dir. case_bool_decide as Hgit.
  - rewrite list_elem_of_singleton. split.
    + intros ->. by constructor.
    + inversion 1; subst; [done|]. by simpl in *.
  - rewrite list_elem_of_join. split.
    + intros (found & Hq & Hfound).
      apply list_elem_of_fmap in Hfound as ([n found'] & -> & He).
      apply elem_of_prune in He as [He Hskip].
      2:{ by rewrite fmap_fst_paired. }
      apply list_elem_of_fmap in He as ([n' sub] & [= -> ->] & Hin).
      simpl in *. apply (repo_below _ _ n' sub); [done..|].
      rewrite Forall_forall in IH, Hsub.
      by apply (IH _ Hin (Hsub _ Hin)).
    + inversion 1 as [|? ? n sub ? _ Hin Hskip Hbelow]; subst; [done|].
      simpl in Hin. exists (walk_repos (path_join p n) sub). split.
      * rewrite Forall_forall in IH, Hsub.
        by apply (IH _ Hin (Hsub _ Hin)).
      * apply list_elem_of_fmap.
        exists (n, walk_repos (path_join p n) sub). split; [done|].
        apply elem_of_prune.
        { by rewrite fmap_fst_paired. }
        split; [|done]. apply list_elem_of_fmap. by exists (n, sub).
Qed.

(** ** What [parse_git_log] returns *)

Lemma lower_char_idem c : Py.lower_char (Py.lower_char c) = Py.lower_char c.
Proof. destruct c as [[] [] [] [] [] [] [] []]; reflexivity. Qed.

Lemma isspace_lower_char c : Py.isspace (Py.lower_char c) = Py.isspace c.
Proof. destruct c as [[] [] [] [] [] [] [] []]; reflexivity. Qed.

Lemma lower_idem s : Py.lower (Py.lower s) = Py.lower s.
Proof. induction s as [|c s IH]; simpl; [done|]. by rewrite lower_char_idem, IH. Qed.

Lemma is_empty_lower s : Py.is_empty (Py.lower s) = Py.is_empty s.
Proof. by destruct s. Qed.

Lemma lstrip_lower s : Py.lstrip (Py.lower s) = Py.lower (Py.lstrip s).
Proof.
  induction s as [|c s IH]; simpl; [done|].
  rewrite isspace_lower_char. by case_match.
Qed.

Lemma rstrip_lower s : Py.rstrip (Py.lower s) = Py.lower (Py.rstrip s).
Proof.
  induction s as [|c s IH]; simpl; [done|].
  rewrite isspace_lower_char, IH, is_empty_lower. by case_match.
Qed.

Lemma strip_lower s : Py.strip (Py.lower s) = Py.lower (Py.strip s).
Proof. unfold Py.strip. by rewrite lstrip_lower, rstrip_lower. Qed.

Lemma rstrip_idem s : Py.rstrip (Py.rstrip s) = Py.rstrip s.
Proof.
  induction s as [|c s IH]; simpl; [done|].
  destruct (Py.isspace c && Py.is_empty (Py.rstrip s)) eqn:Hc; simpl; [done|].
  by rewrite IH, Hc.
Qed.

(** What [lstrip] leaves does not start with white space. *)
Lemma lstrip_head s :
  match Py.lstrip s with
  | EmptyString => True
  | String c _ => Py.isspace c = false
  end.
Proof.
  induction s as [|c s IH]; simpl; [done|].
  destruct (Py.isspace c) eqn:Hc; [done|]. by simpl.
Qed.

Lemma lstrip_rstrip_head s :
  match s with EmptyString => True | String c _ => Py.isspace c = false end ->
  Py.lstrip (Py.rstrip s) = Py.rstrip s.
Proof.
  destruct s as [|c s]; simpl; [done|]. intros Hc. rewrite Hc. simpl. by rewrite Hc.
Qed.

Lemma strip_idem s : Py.strip (Py.strip s) = Py.strip s.
Proof.
  unfold Py.strip. rewrite (lstrip_rstrip_head (Py.lstrip s)) by apply lstrip_head.
  apply rstrip_idem.
Qed.

(** A change line touches the three counters only. *)
Lemma numstat_line_identity c line :
  hash (numstat_line c line) = hash c
  /\ date (numstat_line c line) = date c
  /\ name (numstat_line c line) = name c
  /\ email (numstat_line c line) = email c.
Proof.
  unfold numstat_line.
  destruct (Py.split_ws 2 line) as [|added [|deleted [|rest tl]]]; [done..|].
  repeat case_bool_decide; [done..|].
  destruct (String.eqb added "-"), (String.eqb deleted "-"),
    (Py.int added), (Py.int deleted); done.
Qed.

Lemma numstat_line_files c line :
  files c <= files (numstat_line c line) <= files c + 1.
Proof.
  unfold numstat_line.
  destruct (Py.split_ws 2 line) as [|added [|deleted [|rest tl]]]; [lia..|].
  repeat case_bool_decide; [lia..|].
  destruct (String.eqb added "-"), (String.eqb deleted "-"),
    (Py.int added), (Py.int deleted); simpl; lia.
Qed.

Section ParserInvariant.

Variables MY_EMAILS MY_NAMES : gset string.

(** [Q] holds of the commit being built, [P] of the commits returned. *)
Variables (Q P : commit -> Prop).
Hypothesis Q_new : forall line c, new_commit line = Some c -> Q c.
Hypothesis Q_line : forall c line, Q c -> Q (numstat_line c line).
Hypothesis P_save :
  forall c, Q c -> is_me MY_EMAILS MY_NAMES (name c) (email c) = true -> P c.

Lemma save_invariant current commits :
  (forall c, current = Some c -> Q c) ->
  Forall P commits ->
  Forall P (save MY_EMAILS MY_NAMES current commits).
Proof.
  intros Hcur Hall. unfold save. destruct current as [c|]; [|done].
  destruct (is_me _ _ _ _) eqn:Hme; [|done].
  apply Forall_app. split; [done|]. apply Forall_singleton.
  apply P_save; [by apply Hcur|done].
Qed.

Lemma parse_lines_invariant lines current commits :
  (forall c, current = Some c -> Q c) ->
  Forall P commits ->
  Forall P (parse_lines MY_EMAILS MY_NAMES lines current commits).
Proof.
  revert current commits.
  induction lines as [|line lines IH]; intros current commits Hcur Hall.
  - by apply save_invariant.
  - cbn [parse_lines]. destruct (Py.startswith _ line).
    + destruct (new_commit line) as [c|] eqn:Hnew; [|by apply save_invariant].
      apply IH; [|by apply save_invariant].
      intros ? [= <-]. by eapply Q_new.
    + destruct current as [c|]; [|by apply IH].
      case_match; apply IH; try done.
      intros ? [= <-]. apply Q_line. by apply Hcur.
Qed.

Lemma parse_git_log_invariant stdout :
  Forall P (parse_git_log MY_EMAILS MY_NAMES stdout).
Proof.
  destruct stdout as [text|]; simpl; [|done].
  by apply parse_lines_invariant.
Qed.

End ParserInvariant.

(** X1. Whatever git printed, every commit [parse_git_log] returns has an
    author that [is_me] accepts. *)
Theorem parse_git_log_only_mine :
  forall (MY_EMAILS MY_NAMES : gset string) stdout c,
    c ∈ parse_git_log MY_EMAILS MY_NAMES stdout ->
    is_me MY_EMAILS MY_NAMES (name c) (email c) = true.
Proof.
  intros MY_EMAILS MY_NAMES stdout c Hc.
  assert (Hinv : Forall
            (fun c => is_me MY_EMAILS MY_NAMES (name c) (email c) = true)
            (parse_git_log MY_EMAILS MY_NAMES stdout)).
  { by apply (parse_git_log_invariant _ _ (fun _ => True)). }
  rewrite Forall_forall in Hinv. by apply Hinv.
Qed.

Lemma parse_git_log_only_mine_witness :
  is_me me ∅ "Me" "me@x.com" = true.
Proof.
  apply (parse_git_log_only_mine me ∅ (Some log_minified)
           {| hash := "m1"; date := "2024-01-01T10:00:00+00:00";
              name := "Me"; email := "me@x.com";
              additions := 10; deletions := 5; files := 1 |}).
  vm_compute. apply list_elem_of_here.
Defined.

(** X2. Every commit [parse_git_log] returns carries a name and an email
    without white space at either end, and its email is in lower case. *)
Theorem parse_git_log_normalised :
  forall (MY_EMAILS MY_NAMES : gset string) stdout c,
    c ∈ parse_git_log MY_EMAILS MY_NAMES stdout ->
    Py.strip (name c) = name c
    /\ Py.strip (email c) = email c
    /\ Py.lower (email c) = email c.
Proof.
  intros MY_EMAILS MY_NAMES stdout c Hc.
  set (Q := fun c => Py.strip (name c) = name c
                     /\ Py.strip (email c) = email c
                     /\ Py.lower (email c) = email c).
  assert (Hinv : Forall Q (parse_git_log MY_EMAILS MY_NAMES stdout)).
  { apply (parse_git_log_invariant _ _ Q); [| |done].
    - intros line c' Hnew. unfold new_commit in Hnew.
      repeat case_match; simplify_eq. unfold Q. simpl.
      by rewrite strip_idem, strip_lower, strip_idem, lower_idem.
    - intros c' line Hc'. unfold Q in *.
      destruct (numstat_line_identity c' line) as (_ & _ & -> & ->). done. }
  rewrite Forall_forall in Hinv. by apply Hinv.
Qed.

Lemma parse_git_log_normalised_witness :
  Py.strip "Me" = "Me" /\ Py.strip "me@x.com" = "me@x.com"
  /\ Py.lower "me@x.com" = "me@x.com".
Proof.
  apply (parse_git_log_normalised me ∅
           (Some (hdr "n1" "2024-01-01T10:00:00+00:00" " Me " " ME@X.com ")))
     with (c := fresh "n1" "2024-01-01T10:00:00+00:00").
  vm_compute. apply list_elem_of_here.
Defined.

(** X3. The file count of every returned commit lies between 0 and the
    number of lines of the text, whatever the lines hold. *)
Theorem parse_git_log_files_bounds :
  forall (MY_EMAILS MY_NAMES : gset string) text c,
    c ∈ parse_git_log MY_EMAILS MY_NAMES (Some text) ->
    0 <= files c <= Z.of_nat (length (Py.splitlines text)).
Proof.
  intros MY_EMAILS MY_NAMES text c Hc. simpl in Hc.
  assert (Hgen : forall lines current commits (k : Z),
    0 <= k ->
    (forall c, current = Some c -> 0 <= files c <= k) ->
    Forall (fun c => 0 <= files c <= k + Z.of_nat (length lines)) commits ->
    Forall (fun c => 0 <= files c <= k + Z.of_nat (length lines))
           (parse_lines MY_EMAILS MY_NAMES lines current commits)).
  { induction lines as [|line lines IH]; intros current commits k Hk Hcur Hall.
    - simpl. unfold save. destruct current as [c0|]; [|done].
      case_match; [|done]. apply Forall_app. split; [done|].
      apply Forall_singleton. specialize (Hcur c0 eq_refl). simpl. lia.
    - assert (Hsave : Forall
                (fun c => 0 <= files c <= k + Z.of_nat (length (line :: lines)))
                (save MY_EMAILS MY_NAMES current commits)).
      { unfold save. destruct current as [c0|]; [|done].
        case_match; [|done]. apply Forall_app. split; [done|].
        apply Forall_singleton. specialize (Hcur c0 eq_refl). lia. }
      assert (Hshift : forall cs,
                Forall (fun c => 0 <= files c
                                 <= k + Z.of_nat (length (line :: lines))) cs ->
                Forall (fun c => 0 <= files c
                                 <= (k + 1) + Z.of_nat (length lines)) cs).
      { intros cs H. eapply Forall_impl; [exact H|].
        intros c0. cbn [length]. lia. }
      assert (Hback : forall cs,
                Forall (fun c => 0 <= files c
                                 <= (k + 1) + Z.of_nat (length lines)) cs ->
                Forall (fun c => 0 <= files c
                                 <= k + Z.of_nat (length (line :: lines))) cs).
      { intros cs H. eapply Forall_impl; [exact H|].
        intros c0. cbn [length]. lia. }
      cbn [parse_lines]. destruct (Py.startswith _ line).
      + destruct (new_commit line) as [c0|] eqn:Hnew; [|done].
        apply Hback, IH; [lia| |by apply Hshift].
        intros ? [= <-]. unfold new_commit in Hnew.
        repeat case_match; simplify_eq. simpl. lia.
      + destruct current as [c0|].
        * case_match; apply Hback, IH; try (by apply Hshift); try lia.
          -- intros ? [= <-]. specialize (Hcur c0 eq_refl).
             pose proof (numstat_line_files c0 line). lia.
          -- intros ? [= <-]. specialize (Hcur c0 eq_refl). lia.
        * apply Hback, IH; [lia|done|by apply Hshift]. }
  assert (Hall : Forall
            (fun c => 0 <= files c <= 0 + Z.of_nat (length (Py.splitlines text)))
            (parse_lines MY_EMAILS MY_NAMES (Py.splitlines text) None [])).
  { apply Hgen; [lia|done|constructor]. }
  rewrite Forall_forall in Hall. specialize (Hall c Hc). lia.
Qed.

Lemma parse_git_log_files_bounds_witness :
  0 <= 1 <= Z.of_nat (length (Py.splitlines log_minified)).
Proof.
  apply (parse_git_log_files_bounds me ∅ log_minified
           {| hash := "m1"; date := "2024-01-01T10:00:00+00:00";
              name := "Me"; email := "me@x.com";
              additions := 10; deletions := 5; files := 1 |}).
  vm_compute. apply list_elem_of_here.
Defined.

(** ** Lines the parser passes over, and headers it cannot read *)

(** X4. A header line with fewer than five fields ends the parse: the
    commits before it are returned, the one being built included when it
    is matched, and nothing after that line is read. *)
Theorem parse_lines_short_header_truncates :
  forall (MY_EMAILS MY_NAMES : gset string) before line after current commits,
    Py.startswith "HEADER|" line = true ->
    (length (Py.split "|" line) < 5)%nat ->
    parse_lines MY_EMAILS MY_NAMES (before ++ line :: after) current commits
    = parse_lines MY_EMAILS MY_NAMES before current commits.
Proof.
  intros MY_EMAILS MY_NAMES before line after current commits Hhdr Hshort.
  assert (Hnew : new_commit line = None).
  { unfold new_commit.
    destruct (Py.split "|" line) as [|? [|? [|? [|? [|? ?]]]]]; simpl in *;
      [done..|lia]. }
  revert current commits.
  induction before as [|l before IH]; intros current commits.
  - simpl. by rewrite Hhdr, Hnew.
  - cbn [app parse_lines]. repeat case_match; auto.
Qed.

Lemma parse_lines_short_header_truncates_witness :
  parse_lines me ∅
    (Py.splitlines log_minified ++ "HEADER|deadbeef" :: Py.splitlines log_malformed)
    None []
  = parse_lines me ∅ (Py.splitlines log_minified) None [].
Proof.
  apply parse_lines_short_header_truncates; [reflexivity|].
  vm_compute. lia.
Defined.

Lemma numstat_line_ignorable c line :
  ignorable line = true ->
  Py.is_empty (Py.strip line) = false ->
  numstat_line c line = c.
Proof.
  unfold ignorable, numstat_line. intros [_ H]%andb_true_iff Hblank.
  rewrite Hblank, orb_false_l in H.
  destruct (Py.split_ws 2 line) as [|added [|deleted [|rest tl]]]; [done..|].
  apply orb_true_iff in H as [H|H]; cbv zeta; rewrite H; [done|].
  by destruct (bool_decide (Py.basename (Py.strip rest) ∈ IGNORE_EXACT_FILES)).
Qed.

(** X5. Blank lines, lines with fewer than three fields and change lines
    of ignored files (by base name or by extension) can be taken out of
    the text without changing what the parser returns. *)
Theorem parse_lines_ignorable_lines :
  forall (MY_EMAILS MY_NAMES : gset string) lines current commits,
    parse_lines MY_EMAILS MY_NAMES
      (filter (fun line => ignorable line = false) lines) current commits
    = parse_lines MY_EMAILS MY_NAMES lines current commits.
Proof.
  intros MY_EMAILS MY_NAMES lines.
  induction lines as [|line lines IH]; intros current commits; [done|].
  rewrite filter_cons. destruct (ignorable line) eqn:Hign.
  - rewrite decide_False by done. rewrite IH. cbn [parse_lines].
    pose proof Hign as [Hhdr _]%andb_true_iff.
    apply negb_true_iff in Hhdr. rewrite Hhdr.
    destruct current as [c|]; [|done].
    destruct (Py.is_empty (Py.strip line)) eqn:Hblank; simpl; [done|].
    by rewrite numstat_line_ignorable.
  - rewrite decide_True by done. cbn [parse_lines].
    repeat case_match; auto.
Qed.

(** X6. Lines before the first header belong to no commit and are
    dropped. *)
Theorem parse_lines_before_first_header :
  forall (MY_EMAILS MY_NAMES : gset string) orphans lines commits,
    Forall (fun line => Py.startswith "HEADER|" line = false) orphans ->
    parse_lines MY_EMAILS MY_NAMES (orphans ++ lines) None commits
    = parse_lines MY_EMAILS MY_NAMES lines None commits.
Proof.
  intros MY_EMAILS MY_NAMES orphans lines commits Horph.
  induction Horph as [|line orphans Hline _ IH]; [done|].
  cbn [app parse_lines]. by rewrite Hline.
Qed.

Lemma Forall_forallb_false {A} (f : A -> bool) (l : list A) :
  forallb (fun x => negb (f x)) l = true -> Forall (fun x => f x = false) l.
Proof.
  induction l as [|x l IH]; simpl; [constructor|].
  intros [Hx%negb_true_iff Hl]%andb_true_iff. constructor; [done|by apply IH].
Qed.

Lemma parse_lines_before_first_header_witness :
  parse_lines me ∅ (["9" ++ TAB ++ "9" ++ TAB ++ "lost.py"; ""]
                    ++ Py.splitlines log_minified) None []
  = parse_lines me ∅ (Py.splitlines log_minified) None [].
Proof.
  apply parse_lines_before_first_header.
  apply Forall_forallb_false. reflexivity.
Defined.

(** ** A change line as git prints it *)

Lemma lstrip_nonspace c s :
  Py.isspace c = false -> Py.lstrip (String c s) = String c s.
Proof. intros Hc. simpl. by rewrite Hc. Qed.

Lemma is_word_head s :
  is_word s = true ->
  exists c r, s = String c r /\ Py.isspace c = false
              /\ Py.forall_chars (fun c => negb (Py.isspace c)) r = true.
Proof.
  unfold is_word. destruct s as [|c r]; [done|]. simpl.
  intros [Hc Hr]%andb_true_iff. apply negb_true_iff in Hc. eauto.
Qed.

Lemma span_word_app w c rest :
  Py.forall_chars (fun c => negb (Py.isspace c)) w = true ->
  Py.isspace c = true ->
  Py.span_word (w ++ String c rest) = (w, String c rest).
Proof.
  intros Hw Hc. induction w as [|a w IH].
  - rewrite append_empty_l. simpl. by rewrite Hc.
  - simpl in Hw. apply andb_true_iff in Hw as [Ha Hw].
    apply negb_true_iff in Ha. rewrite append_String.
    cbn [Py.span_word]. by rewrite Ha, (IH Hw).
Qed.

Lemma split_ws_word n w c rest :
  is_word w = true -> Py.isspace c = true ->
  Py.split_ws (S n) (w ++ String c rest) = w :: Py.split_ws n (String c rest).
Proof.
  intros Hw Hc. destruct (is_word_head w Hw) as (a & r & -> & Ha & Hr).
  cbn [Py.split_ws]. rewrite append_String, (lstrip_nonspace _ _ Ha).
  cbn [Py.is_empty]. rewrite <- append_String, span_word_app; [done| |done].
  simpl. by rewrite Ha.
Qed.

Lemma split_ws_space n c s :
  Py.isspace c = true -> Py.split_ws n (String c s) = Py.split_ws n s.
Proof. intros Hc. destruct n; cbn [Py.split_ws Py.lstrip]; by rewrite Hc. Qed.

Lemma stripped_lstrip path :
  Py.strip path = path -> Py.lstrip path = path.
Proof.
  unfold Py.strip. intros Hs. pose proof (lstrip_head path) as Hhead.
  destruct (Py.lstrip path) as [|c r] eqn:Hl.
  - simpl in Hs. by subst path.
  - simpl in Hs. rewrite Hhead in Hs. simpl in Hs. subst path.
    rewrite lstrip_nonspace in Hl by done. by symmetry.
Qed.

Lemma split_ws_change_line added deleted path :
  is_word added = true -> is_word deleted = true ->
  Py.strip path = path -> path <> "" ->
  Py.split_ws 2 (added ++ TAB ++ deleted ++ TAB ++ path)
  = [added; deleted; path].
Proof.
  intros Ha Hd Hp Hne. unfold TAB. rewrite !append_String, !append_empty_l.
  rewrite (split_ws_word 1 added "009" _ Ha eq_refl).
  rewrite (split_ws_space 1 "009") by done.
  rewrite (split_ws_word 0 deleted "009" _ Hd eq_refl).
  rewrite (split_ws_space 0 "009") by done.
  cbn [Py.split_ws]. rewrite (stripped_lstrip _ Hp). by destruct path.
Qed.

(** X7. A change line made of two count fields and a path, separated by
    tabulators, whose file is not ignored, adds the first count to the
    additions, the second to the deletions and one to the files; a count
    printed as "-" adds nothing. *)
Theorem numstat_line_counts :
  forall c added deleted path n m,
    is_word added = true -> is_word deleted = true ->
    Py.strip path = path -> path <> "" ->
    Py.basename path ∉ IGNORE_EXACT_FILES ->
    Py.lower (snd (Py.splitext path)) ∉ IGNORE_EXTENSIONS ->
    count_field added = Some n -> count_field deleted = Some m ->
    additions (numstat_line c (added ++ TAB ++ deleted ++ TAB ++ path))
    = additions c + n
    /\ deletions (numstat_line c (added ++ TAB ++ deleted ++ TAB ++ path))
       = deletions c + m
    /\ files (numstat_line c (added ++ TAB ++ deleted ++ TAB ++ path))
       = files c + 1.
Proof.
  intros c added deleted path n m Ha Hd Hp Hne Hexact Hext Hn Hm.
  unfold numstat_line. rewrite split_ws_change_line by done.
  rewrite Hp, !bool_decide_eq_false_2 by done.
  unfold count_field in *.
  destruct (String.eqb added "-"), (String.eqb deleted "-");
    simplify_eq; try rewrite Hn; try rewrite Hm; simpl; lia.
Qed.

Lemma numstat_line_counts_witness :
  let c := fresh "b1" "2024-01-01T10:00:00+00:00" in
  additions (numstat_line c ("12" ++ TAB ++ "-" ++ TAB ++ "docs/my notes.md"))
  = additions c + 12
  /\ deletions (numstat_line c ("12" ++ TAB ++ "-" ++ TAB ++ "docs/my notes.md"))
     = deletions c + 0
  /\ files (numstat_line c ("12" ++ TAB ++ "-" ++ TAB ++ "docs/my notes.md"))
     = files c + 1.
Proof.
  apply numstat_line_counts; try reflexivity; discriminate.
Defined.

(** ** The language snapshot *)

Lemma bump_lookup lang n (m : gmap string Z) l :
  default 0 (bump lang n m !! l)
  = default 0 (m !! l) + (if decide (l = lang) then n else 0).
Proof.
  unfold bump. case_decide as Hl.
  - subst l. by rewrite lookup_insert_eq.
  - rewrite lookup_insert_ne by done. lia.
Qed.

Lemma count_file_lookup (m : gmap string Z) file lang :
  default 0 (count_file m file !! lang)
  = default 0 (m !! lang) + files_of lang [file].
Proof.
  unfold count_file, files_of. rewrite filter_cons, filter_nil.
  destruct (EXTENSIONS !! _) as [lang'|] eqn:Hext.
  - rewrite bump_lookup. destruct (decide (lang = lang')) as [->|Hne].
    + by rewrite decide_True.
    + rewrite decide_False by congruence. done.
  - rewrite decide_False by done. simpl. lia.
Qed.

Lemma files_of_cons lang file lines :
  files_of lang (file :: lines) = files_of lang [file] + files_of lang lines.
Proof.
  unfold files_of. rewrite !filter_cons, filter_nil.
  case_decide; simpl; lia.
Qed.

Lemma fold_count_file_lookup lines (m : gmap string Z) lang :
  default 0 (fold_left count_file lines m !! lang)
  = default 0 (m !! lang) + files_of lang lines.
Proof.
  revert m. induction lines as [|file lines IH]; intros m.
  - simpl. unfold files_of. simpl. lia.
  - cbn [fold_left]. rewrite IH, count_file_lookup, (files_of_cons lang file lines). lia.
Qed.

Lemma bump_positive lang n (m : gmap string Z) :
  0 < n -> positive_counts m -> positive_counts (bump lang n m).
Proof.
  intros Hn Hm l v. unfold bump.
  destruct (decide (l = lang)) as [->|Hne].
  - rewrite lookup_insert_eq. intros [= <-].
    destruct (m !! lang) as [v'|] eqn:Hv; simpl; [|lia].
    specialize (Hm _ _ Hv). lia.
  - rewrite lookup_insert_ne by done. apply Hm.
Qed.

Lemma fold_count_file_positive lines (m : gmap string Z) :
  positive_counts m -> positive_counts (fold_left count_file lines m).
Proof.
  revert m. induction lines as [|file lines IH]; intros m Hm; [done|].
  cbn [fold_left]. apply IH. unfold count_file.
  case_match; [|done]. by apply bump_positive.
Qed.

Lemma get_current_languages_positive stdout :
  positive_counts (get_current_languages stdout).
Proof.
  destruct stdout as [text|]; simpl.
  - apply fold_count_file_positive. intros ? ?. by rewrite lookup_empty.
  - intros ? ?. by rewrite lookup_empty.
Qed.

Lemma get_current_languages_lookup stdout lang :
  default 0 (get_current_languages stdout !! lang)
  = files_of lang (listing_lines stdout).
Proof.
  destruct stdout as [text|]; simpl.
  - rewrite fold_count_file_lookup, lookup_empty. simpl. lia.
  - by rewrite lookup_empty.
Qed.

(** X8. The snapshot counts, for each language, the listed files whose
    extension, in lower case, the table maps to it; a language of which
    there is no such file has no entry (never an entry of 0), and a failed
    listing gives the empty snapshot. *)
Theorem get_current_languages_counts :
  forall stdout lang,
    default 0 (get_current_languages stdout !! lang)
    = files_of lang (listing_lines stdout)
    /\ (get_current_languages stdout !! lang = None
        <-> files_of lang (listing_lines stdout) = 0).
Proof.
  intros stdout lang. pose proof (get_current_languages_lookup stdout lang) as Hl.
  split; [done|].
  destruct (get_current_languages stdout !! lang) as [v|] eqn:Hv; simpl in Hl.
  - apply get_current_languages_positive in Hv. split; [done|lia].
  - split; [lia|done].
Qed.

Lemma get_current_languages_counts_witness :
  get_current_languages (Some ("a.py" ++ LF ++ "README" ++ LF ++ "b.PY" ++ LF))
    !! "Rust" = None.
Proof.
  apply (get_current_languages_counts
           (Some ("a.py" ++ LF ++ "README" ++ LF ++ "b.PY" ++ LF)) "Rust").
  reflexivity.
Defined.

(** ** The accumulators of [main] *)

Lemma map_fold_bump_lookup (acc m : gmap string Z) lang :
  default 0 (map_fold bump acc m !! lang)
  = default 0 (acc !! lang) + default 0 (m !! lang).
Proof.
  revert m. apply (map_fold_weak_ind
    (fun r m => default 0 (r !! lang)
                = default 0 (acc !! lang) + default 0 (m !! lang))).
  - rewrite lookup_empty. simpl. lia.
  - intros i x m r Hi IH. rewrite bump_lookup, IH.
    case_decide as Hl.
    + subst i. rewrite Hi, lookup_insert_eq. simpl. lia.
    + rewrite lookup_insert_ne by done. lia.
Qed.

Lemma map_fold_bump_positive (acc m : gmap string Z) :
  positive_counts acc -> positive_counts m ->
  positive_counts (map_fold bump acc m).
Proof.
  intros Hacc. revert m. apply (map_fold_weak_ind
    (fun r m => positive_counts m -> positive_counts r)).
  - done.
  - intros i x m r Hi IH Hm. apply bump_positive.
    + apply (Hm i x). by rewrite lookup_insert_eq.
    + apply IH. intros l v Hl. apply (Hm l v).
      rewrite lookup_insert_ne; [done|]. intros ->. congruence.
Qed.

Lemma files_of_app lang l1 l2 :
  files_of lang (l1 ++ l2) = files_of lang l1 + files_of lang l2.
Proof. unfold files_of. rewrite filter_app, length_app. lia. Qed.

Lemma commits_of_app repo_name l1 l2 :
  commits_of repo_name (l1 ++ l2)
  = commits_of repo_name l1 + commits_of repo_name l2.
Proof. unfold commits_of. rewrite filter_app, length_app. lia. Qed.

Lemma commits_of_flatten repo_name n (cs : list commit) :
  commits_of repo_name (flatten n <$> cs)
  = if decide (n = repo_name) then Z.of_nat (length cs) else 0.
Proof.
  unfold commits_of. induction cs as [|c cs IH]; csimpl.
  - by case_decide.
  - rewrite filter_cons. simpl. destruct (decide (n = repo_name)); simpl in *; lia.
Qed.

Section Accumulators.

Variables MY_EMAILS MY_NAMES : gset string.

Local Abbreviation step := (process_repo MY_EMAILS MY_NAMES).
Local Abbreviation parsed := (fun r => parse_git_log MY_EMAILS MY_NAMES (git_log r)).
Local Abbreviation name_of := (fun r : repo => Py.basename (repo_path r)).

Lemma language_counts_fold found acc lang :
  default 0 (language_counts (fold_left step found acc) !! lang)
  = default 0 (language_counts acc !! lang)
    + files_of lang (found ≫= fun r => listing_lines (git_ls_files r)).
Proof.
  revert acc. induction found as [|r found IH]; intros acc.
  - simpl. unfold files_of. simpl. lia.
  - cbn [fold_left]. rewrite IH. cbn [language_counts process_repo].
    rewrite map_fold_bump_lookup, get_current_languages_lookup.
    rewrite bind_cons, files_of_app. lia.
Qed.

Lemma language_counts_positive found acc :
  positive_counts (language_counts acc) ->
  positive_counts (language_counts (fold_left step found acc)).
Proof.
  revert acc. induction found as [|r found IH]; intros acc Hacc; [done|].
  cbn [fold_left]. apply IH. cbn [language_counts process_repo].
  apply map_fold_bump_positive; [done|apply get_current_languages_positive].
Qed.

Lemma commits_of_nonneg repo_name l : 0 <= commits_of repo_name l.
Proof. unfold commits_of. lia. Qed.

Lemma step_totals_bounded acc r :
  totals_bounded acc -> totals_bounded (step acc r).
Proof.
  intros Hacc repo_name n. cbn [process_repo repo_totals all_commits].
  rewrite commits_of_app, commits_of_flatten.
  destruct (Nat.ltb_spec 0 (length (parsed r))) as [Hlen|Hlen].
  - destruct (decide (name_of r = repo_name)) as [<-|Hne].
    + rewrite lookup_insert_eq. intros [= <-].
      pose proof (commits_of_nonneg (name_of r) (all_commits acc)). lia.
    + rewrite lookup_insert_ne by done. intros Hn.
      specialize (Hacc _ _ Hn). lia.
  - intros Hn. specialize (Hacc _ _ Hn). case_decide; lia.
Qed.

Lemma fold_totals_bounded found acc :
  totals_bounded acc -> totals_bounded (fold_left step found acc).
Proof.
  revert acc. induction found as [|r found IH]; intros acc Hacc; [done|].
  cbn [fold_left]. by apply IH, step_totals_bounded.
Qed.

Lemma step_totals_exact acc r :
  totals_exact acc ->
  commits_of (name_of r) (all_commits acc) = 0 ->
  totals_exact (step acc r).
Proof.
  intros Hacc Hfresh repo_name. cbn [process_repo repo_totals all_commits].
  rewrite commits_of_app, commits_of_flatten.
  destruct (Nat.ltb_spec 0 (length (parsed r))) as [Hlen|Hlen].
  - destruct (decide (name_of r = repo_name)) as [<-|Hne].
    + rewrite lookup_insert_eq. simpl. lia.
    + rewrite lookup_insert_ne by done. rewrite Hacc. lia.
  - rewrite Hacc. case_decide; lia.
Qed.

Lemma fold_totals_exact found acc :
  totals_exact acc ->
  NoDup (name_of <$> found) ->
  (forall r, r ∈ found -> commits_of (name_of r) (all_commits acc) = 0) ->
  totals_exact (fold_left step found acc).
Proof.
  revert acc. induction found as [|r found IH]; intros acc Hacc Hnd Hfresh; [done|].
  cbn [fold_left]. rewrite fmap_cons in Hnd. apply NoDup_cons in Hnd as [Hr Hnd].
  apply IH; [|done|].
  - apply step_totals_exact; [done|]. apply Hfresh, list_elem_of_here.
  - intros r' Hr'. cbn [process_repo all_commits].
    rewrite commits_of_app, commits_of_flatten, Hfresh
      by by apply list_elem_of_further.
    rewrite decide_False; [done|]. intros Heq. apply Hr.
    apply list_elem_of_fmap. exists r'. by rewrite Heq.
Qed.

End Accumulators.

Lemma main_fields MY_EMAILS MY_NAMES fromisoformat found now ds :
  main MY_EMAILS MY_NAMES fromisoformat found now = inr ds ->
  let acc := fold_left (process_repo MY_EMAILS MY_NAMES) found (mk_accum [] ∅ ∅) in
  detailed_commits ds = all_commits acc
  /\ languages ds = language_counts acc
  /\ repos ds = repo_totals acc
  /\ generated_at ds = now.
Proof.
  unfold main. destruct (estimate_hours _ _) as [e|h]; [done|].
  by intros [= <-].
Qed.

(** X9. The language counts of the dataset add up the snapshots of all
    repositories: for each language, the number of files mapped to it over
    all listings together, repositories without matched commit included;
    no language is listed with a count of 0. *)
Theorem main_languages_add_up :
  forall MY_EMAILS MY_NAMES fromisoformat found now ds lang,
    main MY_EMAILS MY_NAMES fromisoformat found now = inr ds ->
    default 0 (languages ds !! lang)
    = files_of lang (found ≫= fun r => listing_lines (git_ls_files r))
    /\ languages ds !! lang <> Some 0.
Proof.
  intros * Hmain. apply main_fields in Hmain as (_ & -> & _).
  split.
  - rewrite language_counts_fold. cbn [language_counts].
    rewrite lookup_empty. simpl. lia.
  - intros Hzero.
    eapply (language_counts_positive MY_EMAILS MY_NAMES found) in Hzero; [lia|].
    intros ? ?. cbn [language_counts]. by rewrite lookup_empty.
Qed.

Lemma main_languages_add_up_witness :
  exists ds, main me ∅ Iso.fromisoformat [repo_alpha; repo_beta; repo_A] "now" = inr ds
             /\ default 0 (languages ds !! "Python") = 2
             /\ languages ds !! "Python" <> Some 0.
Proof.
  eexists. split; [by vm_compute|].
  apply (main_languages_add_up me ∅ Iso.fromisoformat
           [repo_alpha; repo_beta; repo_A] "now").
  by vm_compute.
Defined.

(** X10. Each entry of [repos] is at least 1 and at most the number of
    emitted commits carrying that repository name; when no two
    repositories share a base name, every name's entry is exactly that
    number (and names without commit have no entry). *)
Theorem main_repo_totals :
  forall MY_EMAILS MY_NAMES fromisoformat found now ds,
    main MY_EMAILS MY_NAMES fromisoformat found now = inr ds ->
    (forall repo_name n,
        repos ds !! repo_name = Some n ->
        1 <= n <= commits_of repo_name (detailed_commits ds))
    /\ (NoDup ((fun r => Py.basename (repo_path r)) <$> found) ->
        forall repo_name,
          default 0 (repos ds !! repo_name)
          = commits_of repo_name (detailed_commits ds)).
Proof.
  intros * Hmain. apply main_fields in Hmain as (-> & _ & -> & _).
  split.
  - apply fold_totals_bounded. intros ? ?. cbn [repo_totals].
    by rewrite lookup_empty.
  - intros Hnd. apply fold_totals_exact; [|done|done].
    intros ?. cbn [repo_totals]. by rewrite lookup_empty.
Qed.

Lemma main_repo_totals_witness :
  exists ds, main me ∅ Iso.fromisoformat [repo_alpha; repo_A] "now" = inr ds
             /\ default 0 (repos ds !! "A") = commits_of "A" (detailed_commits ds).
Proof.
  eexists. split; [by vm_compute|].
  eapply (main_repo_totals me ∅ Iso.fromisoformat [repo_alpha; repo_A] "now").
  - by vm_compute.
  - apply (bool_decide_unpack _). by vm_compute.
Defined.

(** ** Bounds of the estimate *)

Lemma credit_usec_below_cap gap : credit_usec gap <= usec 7200.
Proof. unfold credit_usec, usec, usec_per_sec. case_match; lia. Qed.

Lemma credits_usec_bounds previous l :
  Sorted Z.le (previous :: l) ->
  0 <= credits_usec previous l <= Z.of_nat (length l) * usec 7200.
Proof.
  revert previous. induction l as [|t l IH]; intros previous Hs.
  - simpl. lia.
  - apply Sorted_inv in Hs as [Hs Hhd]. apply HdRel_inv in Hhd.
    specialize (IH t Hs).
    pose proof (credit_usec_nonneg (t - previous)).
    pose proof (credit_usec_below_cap (t - previous)).
    cbn [credits_usec length]. lia.
Qed.

Lemma total_usec_bounds l :
  l <> [] -> Sorted Z.le l ->
  usec 3600 <= total_usec l
  /\ total_usec l <= usec 3600 + (Z.of_nat (length l) - 1) * usec 7200.
Proof.
  destruct l as [|t l]; [done|]. intros _ Hs.
  pose proof (credits_usec_bounds t l Hs). cbn [total_usec length]. lia.
Qed.

(** X12. For a non-empty input whose dates parse, the estimate is at
    least 1 hour and at most 2 hours per commit less 1. *)
Theorem estimate_hours_bounds :
  forall fromisoformat commits ts,
    commits <> [] ->
    timeline_of fromisoformat commits ts ->
    exists h, estimate_hours fromisoformat commits = inr h
              /\ (1 <= h)%Q
              /\ (h <= inject_Z (2 * Z.of_nat (length commits) - 1))%Q.
Proof.
  intros fromisoformat commits ts Hne Ht.
  eexists. split; [by apply estimate_hours_timeline|].
  assert (Hlen : length (merge_sort Z.le ts) = length commits).
  { destruct Ht as (ds & Hds & _ & Hp). apply length_mapM in Hds.
    rewrite merge_sort_Permutation, <- Hp, length_fmap. done. }
  destruct (total_usec_bounds (merge_sort Z.le ts)) as (H1 & H2).
  - intros Hnil. rewrite Hnil in Hlen. by destruct commits.
  - apply (Sorted_merge_sort Z.le).
  - rewrite Hlen in H2. rewrite !hours_of_usec_eq.
    unfold usec, usec_per_sec in *.
    unfold Qle, inject_Z. simpl. split; lia.
Qed.

Lemma estimate_hours_bounds_witness :
  exists h, estimate_hours Iso.fromisoformat [c_10h30; c_10h00; c_15h00] = inr h
            /\ (1 <= h)%Q
            /\ (h <= inject_Z (2 * Z.of_nat 3 - 1))%Q.
Proof.
  apply (estimate_hours_bounds Iso.fromisoformat [c_10h30; c_10h00; c_15h00]
           [usec (t_10h00 + 1800); usec t_10h00; usec (t_10h00 + 18000)]).
  - discriminate.
  - exists [aware (t_10h00 + 1800); aware t_10h00; aware (t_10h00 + 18000)].
    split; [reflexivity|]. split; reflexivity.
Defined.

(** ** Exceptions of the estimate *)

Lemma comparable_false ds :
  comparable ds = false <->
  (exists d, d ∈ ds /\ tzaware d = true) /\ (exists d, d ∈ ds /\ tzaware d = false).
Proof.
  unfold comparable. rewrite orb_false_iff.
  assert (Hex : forall f : datetime -> bool,
            forallb f ds = false <-> exists d, d ∈ ds /\ f d = false).
  { intros f. induction ds as [|d ds IH]; simpl.
    - split; [done|]. by intros (? & ?%elem_of_nil & _).
    - rewrite andb_false_iff, IH. split.
      + intros [Hd|(d' & Hin & Hd')].
        * exists d. split; [apply list_elem_of_here|done].
        * exists d'. split; [by apply list_elem_of_further|done].
      + intros (d' & [->|Hin]%elem_of_cons & Hd'); [by left|].
        right. by exists d'. }
  rewrite !Hex. split.
  - intros [(d1 & ? & ?) (d2 & ? & H2)]. apply negb_false_iff in H2.
    split; [by exists d2|by exists d1].
  - intros [(d1 & ? & ?) (d2 & ? & ?)]. split; [by exists d2|].
    exists d1. split; [done|]. by apply negb_false_iff.
Qed.

Lemma estimate_hours_raises_iff :
  forall fromisoformat commits,
    (estimate_hours fromisoformat commits = inl ValueError
     <-> exists c, c ∈ commits /\ fromisoformat (fc_date c) = None)
    /\ (estimate_hours fromisoformat commits = inl TypeError
        <-> exists ds,
              mapM (fun c => fromisoformat (fc_date c)) commits = Some ds
              /\ (exists d, d ∈ ds /\ tzaware d = true)
              /\ (exists d, d ∈ ds /\ tzaware d = false)).
Proof.
  intros fromisoformat commits.
  destruct (mapM (fun c => fromisoformat (fc_date c)) commits) as [ds|] eqn:Hds.
  - assert (Hall : ~ exists c, c ∈ commits /\ fromisoformat (fc_date c) = None).
    { intros (c & Hin & Hc).
      assert (Hsome : is_Some (mapM (fun c => fromisoformat (fc_date c)) commits))
        by by rewrite Hds.
      apply mapM_is_Some_1 in Hsome. rewrite Forall_forall in Hsome.
      destruct (Hsome c Hin) as [d Hd]. simpl in Hd. congruence. }
    destruct (comparable ds) eqn:Hc.
    + rewrite (estimate_hours_timeline _ commits (micros <$> ds)) by by exists ds.
      split; (split; [intros; discriminate|]).
      * intros ?. by destruct Hall.
      * intros (ds' & [= <-] & Hmix). apply comparable_false in Hmix. congruence.
    + rewrite (estimate_hours_raises_TypeError _ _ _ Hds Hc).
      split; split.
      * intros; discriminate.
      * intros ?. by destruct Hall.
      * intros _. exists ds. split; [done|]. by apply comparable_false.
      * done.
  - rewrite (estimate_hours_raises_ValueError _ _ Hds).
    split; split.
    + intros _. apply mapM_None_1, Exists_exists in Hds. exact Hds.
    + done.
    + intros; discriminate.
    + by intros (ds & [=] & _).
Qed.

(** X13. [estimate_hours] raises [ValueError] exactly when the date of
    some commit does not parse, and [TypeError] exactly when all dates
    parse and one carries an offset while another does not; an empty input
    raises nothing. *)
Theorem estimate_hours_exceptions :
  forall fromisoformat commits,
    (estimate_hours fromisoformat commits = inl ValueError
     <-> exists c, c ∈ commits /\ fromisoformat (fc_date c) = None)
    /\ (estimate_hours fromisoformat commits = inl TypeError
        <-> exists ds,
              mapM (fun c => fromisoformat (fc_date c)) commits = Some ds
              /\ (exists d, d ∈ ds /\ tzaware d = true)
              /\ (exists d, d ∈ ds /\ tzaware d = false)).
Proof. exact estimate_hours_raises_iff. Qed.

(** X11. [main] does not catch what [estimate_hours] raises: it writes a
    dataset exactly when the dates of the matched commits parse to
    datetimes that can be compared, and it ends with [ValueError] exactly
    when the date of some matched commit does not parse. The dates of
    commits by other authors are never parsed. *)
Theorem main_writes_dataset_iff :
  forall MY_EMAILS MY_NAMES fromisoformat found now,
    ((exists ds, main MY_EMAILS MY_NAMES fromisoformat found now = inr ds)
     <-> exists ts, timeline_of fromisoformat
                      (matched_commits MY_EMAILS MY_NAMES found) ts)
    /\ (main MY_EMAILS MY_NAMES fromisoformat found now = inl ValueError
        <-> exists c, c ∈ matched_commits MY_EMAILS MY_NAMES found
                      /\ fromisoformat (fc_date c) = None).
Proof.
  intros MY_EMAILS MY_NAMES fromisoformat found now. split.
  - split.
    + intros [ds Hmain]. apply main_returned in Hmain as [_ Hest].
      apply estimate_hours_returns in Hest as (dts & Hdts & Hcmp).
      exists (micros <$> dts), dts. done.
    + intros [ts Ht]. pose proof (estimate_hours_timeline _ _ _ Ht) as Hest.
      destruct (main_returns _ _ _ _ now _ Hest) as (ds & Hmain & _). eauto.
  - rewrite <- (proj1 (estimate_hours_raises_iff fromisoformat _)).
    unfold main. rewrite all_commits_main.
    destruct (estimate_hours _ _) as [e|h]; [|done].
    split; congruence.
Qed.

(** ** The estimate under a shift of the clock *)

Lemma merge_sort_shift d l :
  merge_sort Z.le ((fun t => t + d) <$> l)
  = (fun t => t + d) <$> merge_sort Z.le l.
Proof.
  apply sorted_unique_Z.
  - apply (Sorted_merge_sort Z.le).
  - apply (Sorted_fmap _ Z.le Z.le); [|apply (Sorted_merge_sort Z.le)].
    intros x y. lia.
  - by rewrite !merge_sort_Permutation.
Qed.

Lemma total_usec_shift d l :
  total_usec ((fun t => t + d) <$> l) = total_usec l.
Proof.
  destruct l as [|t l]; [done|]. cbn [fmap list_fmap total_usec].
  by rewrite credits_usec_shift.
Qed.

(** X14. Moving every commit by the same amount of time leaves the
    estimate unchanged. *)
Theorem estimate_hours_shift_invariant :
  forall fromisoformat commits commits' ts d,
    timeline_of fromisoformat commits ts ->
    timeline_of fromisoformat commits' ((fun t => t + d) <$> ts) ->
    estimate_hours fromisoformat commits'
    = estimate_hours fromisoformat commits.
Proof.
  intros fromisoformat commits commits' ts d Ht Ht'.
  rewrite (estimate_hours_timeline _ _ _ Ht), (estimate_hours_timeline _ _ _ Ht').
  by rewrite merge_sort_shift, total_usec_shift.
Qed.

Lemma estimate_hours_shift_invariant_witness :
  estimate_hours Iso.fromisoformat [c_15h00; c_19h00]
  = estimate_hours Iso.fromisoformat [c_11h00; c_15h00].
Proof.
  apply (estimate_hours_shift_invariant Iso.fromisoformat _ _
           [usec (t_10h00 + 3600); usec (t_10h00 + 18000)] (usec 14400)).
  - exists [aware (t_10h00 + 3600); aware (t_10h00 + 18000)].
    split; [reflexivity|]. split; reflexivity.
  - exists [aware (t_10h00 + 18000); aware (t_10h00 + 32400)].
    split; [reflexivity|]. split; reflexivity.
Defined.

(** ** Edges of the configuration *)

(** X15. With no configured identity [is_me] accepts nobody; with the
    empty string among the configured emails it accepts everybody; and
    configuring more identities never turns an accepted author away. *)
Theorem is_me_configuration_edges :
  (forall name email, is_me ∅ ∅ name email = false)
  /\ (forall (MY_EMAILS MY_NAMES : gset string) name email,
        "" ∈ MY_EMAILS -> is_me MY_EMAILS MY_NAMES name email = true)
  /\ (forall (MY_EMAILS MY_NAMES MORE_EMAILS MORE_NAMES : gset string) name email,
        is_me MY_EMAILS MY_NAMES name email = true ->
        is_me (MY_EMAILS ∪ MORE_EMAILS) (MY_NAMES ∪ MORE_NAMES) name email = true).
Proof.
  split_and!.
  - intros name email. destruct (is_me ∅ ∅ name email) eqn:Hme; [|done].
    apply is_me_spec in Hme as [?|[?|(? & ? & _)]]; set_solver.
  - intros MY_EMAILS MY_NAMES name email Hin. apply is_me_spec.
    right. right. exists "". split; [done|]. by exists "", email.
  - intros MY_EMAILS MY_NAMES MORE_EMAILS MORE_NAMES name email Hme.
    apply is_me_spec. apply is_me_spec in Hme as [?|[?|(my_id & ? & ?)]].
    + left. set_solver.
    + right. left. set_solver.
    + right. right. exists my_id. split; [set_solver|done].
Qed.

Lemma is_me_configuration_edges_witness :
  is_me {[""]} ∅ "Eve" "eve@y.org" = true
  /\ is_me ({["me@x.com"]} ∪ {["old@x.org"]}) (∅ ∪ {["Me"]}) "Eve" "me@x.com" = true.
Proof.
  pose proof is_me_configuration_edges as (_ & Hall & Hmore).
  split.
  - apply Hall. by apply elem_of_singleton.
  - apply Hmore. reflexivity.
Defined.

(** ** Discovery *)

(** X16. In a tree where the sub-directories of a directory have distinct
    names, [get_git_repos] reports exactly the directories holding ".git"
    that are reached from the root through directories which hold no
    ".git" themselves and whose names are not in the pruned list: nothing
    inside a repository and nothing below node_modules, venv, target,
    dist, build, vendor, deps or __pycache__. *)
Theorem get_git_repos_reports_exactly :
  forall root listing q,
    distinct_names listing ->
    q ∈ get_git_repos root listing <-> repo_at root listing q.
Proof. intros root listing q Hd. by apply walk_repos_iff_repo_at. Qed.

Lemma get_git_repos_reports_exactly_witness :
  "/home/me/Development/work/tools" ∈ get_git_repos "/home/me/Development" development
  <-> repo_at "/home/me/Development" development "/home/me/Development/work/tools".
Proof.
  apply get_git_repos_reports_exactly.
  cbn [distinct_names development repo_dir snd].
  repeat split; apply (bool_decide_unpack _); by vm_compute.
Defined.

(** ** Order of the returned commits *)

Lemma header_commits_cons line lines :
  header_commits (line :: lines)
  = ((if Py.startswith "HEADER|" line
      then option_list (new_commit line) else [])
     ++ header_commits lines)%list.
Proof.
  unfold header_commits. cbn [omap list_omap].
  destruct (Py.startswith _ line); [|done]. by destruct (new_commit line).
Qed.

Lemma heading_numstat_line c line : heading (numstat_line c line) = heading c.
Proof.
  unfold heading.
  by destruct (numstat_line_identity c line) as (-> & -> & -> & ->).
Qed.

Lemma save_heading MY_EMAILS MY_NAMES current commits :
  exists kept,
    heading <$> save MY_EMAILS MY_NAMES current commits
    = ((heading <$> commits) ++ kept)%list
    /\ kept `sublist_of` heading <$> option_list current.
Proof.
  unfold save. destruct current as [c|]; simpl.
  - case_match.
    + exists [heading c]. by rewrite fmap_app.
    + exists []. rewrite app_nil_r. split; [done|apply sublist_nil_l].
  - exists []. rewrite app_nil_r. split; [done|apply sublist_nil_l].
Qed.

Lemma parse_lines_heading MY_EMAILS MY_NAMES lines current commits :
  exists kept,
    heading <$> parse_lines MY_EMAILS MY_NAMES lines current commits
    = ((heading <$> commits) ++ kept)%list
    /\ kept `sublist_of`
         heading <$> (option_list current ++ header_commits lines)%list.
Proof.
  revert current commits.
  induction lines as [|line lines IH]; intros current commits.
  - cbn [parse_lines]. unfold header_commits. cbn [omap list_omap].
    rewrite app_nil_r. apply save_heading.
  - cbn [parse_lines]. rewrite header_commits_cons.
    destruct (Py.startswith _ line).
    + destruct (save_heading MY_EMAILS MY_NAMES current commits)
        as (kept0 & Hsave & Hsub0).
      destruct (new_commit line) as [c|] eqn:Hnew.
      * destruct (IH (Some c) (save MY_EMAILS MY_NAMES current commits))
          as (kept & Hkept & Hsub).
        exists (kept0 ++ kept)%list. split.
        -- by rewrite Hkept, Hsave, <- app_assoc.
        -- rewrite fmap_app. by apply sublist_app.
      * exists kept0. split; [done|]. simpl.
        rewrite fmap_app. by apply sublist_inserts_r.
    + simpl. destruct current as [c|]; [|apply IH].
      case_match; [|apply IH].
      destruct (IH (Some (numstat_line c line)) commits) as (kept & Hkept & Hsub).
      exists kept. split; [done|].
      simpl in *. by rewrite heading_numstat_line in Hsub.
Qed.

(** X17. The commits [parse_git_log] returns follow the order of the
    header lines of the text: their headings (hash, date, name, email) are
    those of the headers, some left out, none repeated or moved; so there
    are at most as many commits as headers. *)
Theorem parse_git_log_header_order :
  forall (MY_EMAILS MY_NAMES : gset string) text,
    heading <$> parse_git_log MY_EMAILS MY_NAMES (Some text)
      `sublist_of` heading <$> header_commits (Py.splitlines text)
    /\ (length (parse_git_log MY_EMAILS MY_NAMES (Some text))
        <= length (header_commits (Py.splitlines text)))%nat.
Proof.
  intros MY_EMAILS MY_NAMES text.
  destruct (parse_lines_heading MY_EMAILS MY_NAMES (Py.splitlines text) None [])
    as (kept & Hkept & Hsub).
  simpl in Hkept, Hsub. assert (Hs : heading <$> parse_git_log MY_EMAILS MY_NAMES (Some text)
      `sublist_of` heading <$> header_commits (Py.splitlines text)).
  { simpl. by rewrite Hkept. }
  split; [done|]. apply sublist_length in Hs. by rewrite !length_fmap in Hs.
Qed.

(** ** Commits at the same instant *)

Lemma credit_usec_zero : credit_usec 0 = 0.
Proof. reflexivity. Qed.

Lemma credits_usec_insert_dup previous l t :
  Sorted Z.le (previous :: l) -> t ∈ previous :: l ->
  credits_usec previous (insert_instant t l) = credits_usec previous l.
Proof.
  revert previous. induction l as [|x l IH]; intros previous Hs Hin.
  - apply list_elem_of_singleton in Hin as ->. simpl.
    by rewrite Z.sub_diag, credit_usec_zero.
  - pose proof Hs as Hss. apply (Sorted_StronglySorted Z.le) in Hss.
    apply StronglySorted_inv in Hss as [Hss Hall].
    apply Sorted_inv in Hs as [Hs Hhd]. apply HdRel_inv in Hhd.
    cbn [insert_instant]. destruct (Z.leb_spec t x) as [Hle|Hlt].
    + assert (Ht : t = previous \/ t = x).
      { apply elem_of_cons in Hin as [->|Hin]; [by left|].
        apply elem_of_cons in Hin as [->|Hin]; [by right|].
        apply StronglySorted_inv in Hss as [_ Hx].
        rewrite Forall_forall in Hx. specialize (Hx t Hin). right. lia. }
      cbn [credits_usec]. destruct Ht as [->| ->];
        rewrite Z.sub_diag, credit_usec_zero; lia.
    + cbn [credits_usec]. rewrite IH; [done|done|].
      apply elem_of_cons in Hin as [->|Hin]; [lia|done].
Qed.

Lemma total_usec_insert_dup l t :
  Sorted Z.le l -> t ∈ l -> total_usec (insert_instant t l) = total_usec l.
Proof.
  destruct l as [|x l]; intros Hs Hin; [by apply elem_of_nil in Hin|].
  cbn [insert_instant]. destruct (Z.leb_spec t x) as [Hle|Hlt].
  - assert (t = x) as ->.
    { apply elem_of_cons in Hin as [->|Hin]; [done|].
      apply (Sorted_StronglySorted Z.le), StronglySorted_inv in Hs as [_ Hx].
      rewrite Forall_forall in Hx. specialize (Hx t Hin). lia. }
    cbn [total_usec credits_usec]. rewrite Z.sub_diag, credit_usec_zero. lia.
  - cbn [total_usec]. rewrite credits_usec_insert_dup; [done|done|].
    apply elem_of_cons in Hin as [->|Hin]; [lia|by apply list_elem_of_further].
Qed.

(** X18. A further commit at an instant at which there is a commit
    already adds nothing to the estimate. *)
Theorem estimate_hours_same_instant :
  forall fromisoformat commits commits' ts t,
    timeline_of fromisoformat commits ts ->
    timeline_of fromisoformat commits' (t :: ts) ->
    t ∈ ts ->
    estimate_hours fromisoformat commits'
    = estimate_hours fromisoformat commits.
Proof.
  intros fromisoformat commits commits' ts t Ht Ht' Hin.
  rewrite (estimate_hours_timeline _ _ _ Ht), (estimate_hours_timeline _ _ _ Ht').
  rewrite merge_sort_cons, total_usec_insert_dup; [done| |].
  - apply (Sorted_merge_sort Z.le).
  - by rewrite merge_sort_Permutation.
Qed.

Lemma estimate_hours_same_instant_witness :
  estimate_hours Iso.fromisoformat
    [c_10h00; at_time "2024-01-01T12:00:00+02:00"; c_10h30]
  = estimate_hours Iso.fromisoformat [c_10h00; c_10h30].
Proof.
  apply (estimate_hours_same_instant Iso.fromisoformat _ _
           [usec t_10h00; usec (t_10h00 + 1800)] (usec t_10h00)).
  - exists [aware t_10h00; aware (t_10h00 + 1800)].
    split; [reflexivity|]. split; reflexivity.
  - exists [aware t_10h00; aware t_10h00; aware (t_10h00 + 1800)].
    split; [reflexivity|]. split; [reflexivity|]. apply Permutation_refl.
  - apply list_elem_of_here.
Defined.

(** ** Count fields that are no numbers *)

(** X19. The two counts of a change line are applied one after the
    other. When the first is neither "-" nor an integer the line changes
    nothing; when the first is fine and the second is neither, the first
    has been added already and stays, while deletions and files are not
    touched. *)
Theorem numstat_line_bad_counts :
  forall c added deleted path,
    is_word added = true -> is_word deleted = true ->
    Py.strip path = path -> path <> "" ->
    Py.basename path ∉ IGNORE_EXACT_FILES ->
    Py.lower (snd (Py.splitext path)) ∉ IGNORE_EXTENSIONS ->
    (count_field added = None ->
     numstat_line c (added ++ TAB ++ deleted ++ TAB ++ path) = c)
    /\ (forall n,
          count_field added = Some n -> count_field deleted = None ->
          additions (numstat_line c (added ++ TAB ++ deleted ++ TAB ++ path))
          = additions c + n
          /\ deletions (numstat_line c (added ++ TAB ++ deleted ++ TAB ++ path))
             = deletions c
          /\ files (numstat_line c (added ++ TAB ++ deleted ++ TAB ++ path))
             = files c).
Proof.
  intros c added deleted path Ha Hd Hp Hne Hexact Hext.
  unfold numstat_line. rewrite split_ws_change_line by done.
  rewrite Hp, !bool_decide_eq_false_2 by done.
  unfold count_field. split.
  - destruct (String.eqb added "-"); [done|]. by intros ->.
  - intros n Hn Hm.
    destruct (String.eqb added "-"), (String.eqb deleted "-");
      simplify_eq; try rewrite Hn; try rewrite Hm; simpl; lia.
Qed.

Lemma numstat_line_bad_counts_witness :
  let c := fresh "b1" "2024-01-01T10:00:00+00:00" in
  numstat_line c ("1.5" ++ TAB ++ "3" ++ TAB ++ "src/main.py") = c
  /\ additions (numstat_line c ("7" ++ TAB ++ "3e2" ++ TAB ++ "src/main.py"))
     = additions c + 7.
Proof.
  split.
  - apply (numstat_line_bad_counts _ "1.5" "3" "src/main.py");
      try reflexivity; discriminate.
  - apply (numstat_line_bad_counts _ "7" "3e2" "src/main.py");
      try reflexivity; discriminate.
Defined.

